(** * simple_shell: the session loop of [main.c] and [print_env_error.c]

    A shallow embedding of the two source files of the shell and of the
    collaborators that [shell.h] declares.  The C code talks to the outside
    through libc ([fopen], [fclose], [isatty], [write], [malloc], [free],
    [exit]) and through the helpers of [shell.h]; both are made explicit
    here as operations on a [world], threaded through a small monad whose
    results distinguish a call that returns from a process that terminated
    through [exit]. *)

From Stdlib Require Import ZArith Lia Bool Ascii String.
From stdpp Require Import base option list strings gmap.

Local Open Scope string_scope.
Local Open Scope Z_scope.
Local Open Scope list_scope.

(** ** Characters and constants *)

Definition ch_space : ascii := " "%char.
Definition ch_tab : ascii := "009"%char.
Definition ch_nl : ascii := "010"%char.
Definition ch_hash : ascii := "#"%char.
Definition ch_semi : ascii := ";"%char.
Definition ch_amp : ascii := "&"%char.
Definition ch_bar : ascii := "|"%char.

(** The C literal of one newline character, written by [handle_exit]. *)
Definition str_nl : string := String ch_nl EmptyString.
(** The delimiter set [" \t\n"] handed to [tokenize_command]. *)
Definition delim_ws : string :=
  String ch_space (String ch_tab (String ch_nl EmptyString)).

Definition STDIN_FILENO : Z := 0.
Definition STDOUT_FILENO : Z := 1.

(** ** The world the process runs in *)

(** A [FILE *] is a stream handle; [stdin] is handle 0.  A [char *] coming
    from [malloc] is an address; [NULL] is [None] throughout. *)
Definition FILE := nat.
Definition stdin : FILE := 0%nat.
Definition ptr := nat.

(** What the process does that an observer can see, in program order: the
    libc calls of the source, the diagnostics, and the calls into the
    stages of the pipeline. *)
Inductive event : Type :=
| EvFopen (path : string) (ok : bool)
| EvFclose (f : FILE)
| EvWrite (fd : Z) (s : string)
| EvFree (p : ptr)
| EvExit (status : Z)
| EvFileError (shell : string) (idx : Z) (path : string)
| EvShellError (shell : string) (idx : Z) (cmd : list string) (msg : string)
| EvFreeAliases
| EvFreeMemory
| EvRead (f : FILE)
| EvCommentFilter (line : option string)
| EvOperatorCheck (line : string)
| EvSplit (line : string)
| EvTokenize (seg : string)
| EvDispatch (cmd : list string) (status_before : Z)
| EvStatus (status_now : Z).

Record world : Type := World {
  fs : gmap string (list string);      (* files that can be opened, as lines *)
  streams : gmap FILE (list string);   (* open streams: the lines still unread *)
  tty : bool;                          (* isatty(STDIN_FILENO) *)
  environ : gmap string string;        (* the process environment *)
  oracle : list bool;                  (* forthcoming allocations: true = fails *)
  brk : ptr;                           (* the next address malloc hands out *)
  trace : list event                   (* events so far, oldest first *)
}.

Definition set_streams (s : gmap FILE (list string)) (w : world) : world :=
  World (fs w) s (tty w) (environ w) (oracle w) (brk w) (trace w).
Definition set_environ (e : gmap string string) (w : world) : world :=
  World (fs w) (streams w) (tty w) e (oracle w) (brk w) (trace w).
Definition set_oracle (o : list bool) (w : world) : world :=
  World (fs w) (streams w) (tty w) (environ w) o (brk w) (trace w).
Definition set_brk (b : ptr) (w : world) : world :=
  World (fs w) (streams w) (tty w) (environ w) (oracle w) b (trace w).
Definition emit (e : event) (w : world) : world :=
  World (fs w) (streams w) (tty w) (environ w) (oracle w) (brk w) (trace w ++ [e]).

(** ** Calls that return, and processes that end *)

Inductive result (A : Type) : Type :=
| Ret (a : A) (w : world)         (* the call returned [a] *)
| Exit (status : Z) (w : world)   (* the process ended in [exit(status)] *)
| Timeout.                        (* the loop bound of the model ran out *)
Arguments Ret {A} a w.
Arguments Exit {A} status w.
Arguments Timeout {A}.

Definition M (A : Type) : Type := world -> result A.

Definition ret {A} (a : A) : M A := fun w => Ret a w.
Definition bind {A B} (c : M A) (k : A -> M B) : M B := fun w =>
  match c w with
  | Ret a w' => k a w'
  | Exit s w' => Exit s w'
  | Timeout => Timeout
  end.

Declare Scope shell_scope.
Delimit Scope shell_scope with shell.
Notation "x <- c ;; k" := (bind c (fun x => k))
  (at level 100, c at next level, right associativity) : shell_scope.
Notation "c ;; k" := (bind c (fun _ => k))
  (at level 100, right associativity) : shell_scope.
Local Open Scope shell_scope.

Definition log (e : event) : M unit := fun w => Ret tt (emit e w).

(** The final world of a run, when there is one. *)
Definition final {A} (r : result A) : option world :=
  match r with
  | Ret _ w => Some w
  | Exit _ w => Some w
  | Timeout => None
  end.

(** ** libc *)

(** [exit(status)]: the process ends; nothing after the call runs. *)
Definition exit {A} (status : Z) : M A := fun w =>
  Exit status (emit (EvExit status) w).

(** [fopen(path, "r")]: [NULL] when the file cannot be opened. *)
Definition fopen (path : string) : M (option FILE) := fun w =>
  match fs w !! path with
  | Some content =>
      let f := fresh ({[stdin]} ∪ dom (streams w)) in
      Ret (Some f) (emit (EvFopen path true) (set_streams (<[f := content]> (streams w)) w))
  | None => Ret None (emit (EvFopen path false) w)
  end.

Definition fclose (f : FILE) : M unit := fun w =>
  Ret tt (emit (EvFclose f) (set_streams (delete f (streams w)) w)).

(** [isatty(fd)]: only asked of standard input by the source. *)
Definition isatty (fd : Z) : M bool := fun w =>
  Ret (if fd =? STDIN_FILENO then tty w else false) w.

Definition write (fd : Z) (s : string) : M unit := log (EvWrite fd s).

(** An allocation attempt: the next entry of the oracle says whether it
    fails; an exhausted oracle means memory is plentiful. *)
Definition alloc_ok : M bool := fun w =>
  match oracle w with
  | fails :: o => Ret (negb fails) (set_oracle o w)
  | [] => Ret true w
  end.

(** [malloc(n)]: [NULL] when the allocation fails. *)
Definition malloc (n : Z) : M (option ptr) :=
  ok <- alloc_ok;;
  if ok then (fun w => Ret (Some (brk w)) (set_brk (S (brk w)) w))
  else ret None.

(** [free(p)]: [free(NULL)] does nothing. *)
Definition free (p : option ptr) : M unit :=
  match p with
  | Some a => log (EvFree a)
  | None => ret tt
  end.

(** ** The data of the session *)

(** The [Alias] list of [shell.h]: name and replacement text, in insertion
    order; [NULL] is the empty list. *)
Definition Alias : Type := list (string * string).

(** What [main] hands to the stages by reference: [&exit_status],
    [&aliases], [&new_env].  The C [int]s are kept as integers: the two
    files compute nothing on them but [cmd_idx++], which stays within
    [int] for any input of fewer than 2^31 lines, and [exit] is given the
    status as it stands. *)
Record session : Type := Session {
  exit_status : Z;
  aliases : Alias;
  new_env : option ptr
}.

Definition set_exit_status (s : Z) (ses : session) : session :=
  Session s (aliases ses) (new_env ses).

(** The locals of [main] that live across iterations of its loop. *)
Record locals : Type := Locals {
  ses : session;
  cmd_idx : Z;
  is_comment : Z;
  file : option FILE;
  cmd : option (list string)
}.

(** ** The helpers declared in [shell.h]

    [main.c] and [print_env_error.c] call these and define none of them.
    The source is embedded over any implementation of them; the three that
    only inspect or cut the line are functions of the line. *)
Class ShellLib : Type := {
  (* char *read_command(FILE *stream, int argc) *)
  read_command : FILE -> Z -> M (option string);
  (* int check_for_comments(char *cmd_line) *)
  check_for_comments : option string -> Z;
  (* char *handle_comments(char *cmd_line) *)
  handle_comments : option string -> option string;
  (* char *check_for_operator(char *cmd_line) *)
  check_for_operator : string -> option string;
  (* void handle_operators(argv, cmd_line, operator, exit_status, cmd_idx,
                           aliases, new_env) *)
  handle_operators :
    list string -> string -> string -> Z -> session -> M session;
  (* char **tokenize_command(char *cmd_line, char *delim) *)
  tokenize_command : string -> string -> M (option (list string));
  (* void process_command(cmd, argv, cmd_idx, exit_status, aliases, new_env) *)
  process_command :
    list string -> list string -> Z -> session -> M session
}.

(** Modelled from the spec: [print_file_error], the error reporter at
    startup: formats a diagnostic to standard error and returns nothing
    the caller uses. *)
Definition print_file_error (shell : string) (idx : Z) (path : string) : M unit :=
  log (EvFileError shell idx path).

(** Modelled from the spec: [print_shell_error], the error reporter: takes
    the shell's invocation name, the command index, the offending token
    vector and a message, and formats them to standard error. *)
Definition print_shell_error (shell : string) (idx : Z) (c : list string)
    (msg : string) : M unit :=
  log (EvShellError shell idx c msg).

(** Modelled from the spec: [free_aliases] and [free_memory], which
    release the alias list and a token vector. *)
Definition free_aliases (a : Alias) : M unit := log EvFreeAliases.
Definition free_memory (c : option (list string)) : M unit := log EvFreeMemory.

(** A call of the Dispatcher, bracketed in the trace by the exit status it
    was entered with and the one the session has when it returns. *)
Definition dispatch
    (pc : list string -> list string -> Z -> session -> M session)
    (c argv : list string) (idx : Z) (s : session) : M session :=
  log (EvDispatch c (exit_status s));;
  s' <- pc c argv idx s;;
  log (EvStatus (exit_status s'));;
  ret s'.

(** [argv[i]]. *)
Definition arg (argv : list string) (i : nat) : string :=
  nth i argv EmptyString.

(** ** print_env_error.c *)

Definition env_err_msg : string := "Unable to add/remove from environment".

Definition print_env_error (c : list string) (shell_name : string)
    (idx : Z) : M Z :=
  let exit_status := 2 in
  print_shell_error shell_name idx c env_err_msg;;
  ret exit_status.

(** ** main.c

    The four functions of [main.c], statement for statement.  The one
    addition to the C text is the event that precedes each call into a
    stage of the pipeline, so that the order of the calls can be read off
    the trace. *)

Section Source.
Context `{ShellLib}.

Definition read_and_handle_comments (file : option FILE) (argc : Z)
    : M (option string * Z) :=
  cmd_line <- match file with
              | Some f => log (EvRead f);; read_command f argc
              | None => log (EvRead stdin);; read_command stdin argc
              end;;
  log (EvCommentFilter cmd_line);;
  let is_comment := check_for_comments cmd_line in
  let cmd_line := if is_comment =? 1 then handle_comments cmd_line
                  else cmd_line in
  ret (cmd_line, is_comment).

Definition handle_exit (is_comment : Z) (exit_status : Z)
    (file : option FILE) (new_env : option ptr) : M unit :=
  match file with
  | Some f => fclose f
  | None => ret tt
  end;;
  (if is_comment =? 0
   then (t <- isatty STDIN_FILENO;;
         if t then write STDOUT_FILENO str_nl else ret tt)
   else ret tt);;
  match new_env with
  | Some p => free (Some p)
  | None => ret tt
  end;;
  exit exit_status.

Definition handle_command_exec (cmd : option (list string))
    (cmd_line : string) (argv : list string) (cmd_idx : Z) (s : session)
    : M session :=
  log (EvOperatorCheck cmd_line);;
  match check_for_operator cmd_line with
  | Some operator =>
      log (EvSplit cmd_line);;
      handle_operators argv cmd_line operator cmd_idx s
  | None =>
      log (EvTokenize cmd_line);;
      cmd <- tokenize_command cmd_line delim_ws;;
      match cmd with
      | None => ret s
      | Some c => dispatch process_command c argv cmd_idx s
      end
  end.

(** One pass through the body of the [do ... while (1)] of [main]. *)
Definition loop_body (argc : Z) (argv : list string) (l : locals) : M locals :=
  r <- read_and_handle_comments (file l) argc;;
  let cmd_line := fst r in
  let l := Locals (ses l) (cmd_idx l) (snd r) (file l) (cmd l) in
  match cmd_line with
  | None =>
      handle_exit (is_comment l) (exit_status (ses l)) (file l)
                  (new_env (ses l));;
      free_aliases (aliases (ses l));;
      free (new_env (ses l));;
      ret l                                        (* continue *)
  | Some line =>
      let l := Locals (ses l) (cmd_idx l + 1) (is_comment l) (file l) (cmd l) in
      s <- handle_command_exec (cmd l) line argv (cmd_idx l) (ses l);;
      ret (Locals s (cmd_idx l) (is_comment l) (file l) (cmd l))
  end.

(** [do body while (cond)], bounded by [fuel] passes. *)
Fixpoint do_while (fuel : nat) (body : locals -> M locals)
    (cond : locals -> bool) (l : locals) : M locals :=
  match fuel with
  | O => fun _ => Timeout
  | S fuel' =>
      l' <- body l;;
      if cond l' then do_while fuel' body cond l' else ret l'
  end.

Definition main (fuel : nat) (argc : Z) (argv : list string) : M Z :=
  new_env <- malloc 1024;;
  let l := Locals (Session 0 [] new_env) 0 0 None None in
  l <- (if 1 <? argc
        then (f <- fopen (arg argv 1);;
              match f with
              | None =>
                  print_file_error (arg argv 0) (cmd_idx l) (arg argv 1);;
                  free (new_env);;
                  exit 2
              | Some f => ret (Locals (ses l) (cmd_idx l) (is_comment l)
                                      (Some f) (cmd l))
              end)
        else ret l);;
  l <- do_while fuel (loop_body argc argv) (fun _ => true) l;;
  match file l with
  | Some f => fclose f
  | None => ret tt
  end;;
  free_memory (cmd l);;
  ret 0.

End Source.

(** ** The stages that [shell.h] declares, after the specification

    None of the helpers below is defined in [main.c] or
    [print_env_error.c].  Each is written out from the contract the
    specification gives it. *)

Module Spec.

(** *** Line reader *)

(** Modelled from the spec: [read_command], the line reader ("yields next
    line or end-of-input given a stream handle"): the next unread line of
    the stream, [NULL] once the stream is exhausted or is not open. *)
Definition read_command (f : FILE) (argc : Z) : M (option string) := fun w =>
  match streams w !! f with
  | Some (line :: rest) => Ret (Some line) (set_streams (<[f := rest]> (streams w)) w)
  | _ => Ret None w
  end.

(** *** Comment Filter *)

Definition is_blank (c : ascii) : bool :=
  Ascii.eqb c ch_space || Ascii.eqb c ch_tab.

Fixpoint all_blank (s : string) : bool :=
  match s with
  | EmptyString => true
  | String c r => is_blank c && all_blank r
  end.

(** Modelled from the spec: where a comment begins.  The text in front of
    the comment marker, when the line has one: the marker is the first [#]
    that starts the line or follows a blank. *)
Fixpoint before_comment (at_start : bool) (s : string) : option string :=
  match s with
  | EmptyString => None
  | String c r =>
      if Ascii.eqb c ch_hash && at_start then Some EmptyString
      else match before_comment (is_blank c) r with
           | Some p => Some (String c p)
           | None => None
           end
  end.

(** Modelled from the spec: [check_for_comments], the flag of the Comment
    Filter: 1 when the line carries a comment, 0 otherwise and when there
    is no line. *)
Definition check_for_comments (cmd_line : option string) : Z :=
  match cmd_line with
  | Some s => match before_comment true s with Some _ => 1 | None => 0 end
  | None => 0
  end.

(** Modelled from the spec: [handle_comments], the Comment Filter proper:
    the line with its comment removed, and no line at all when nothing but
    blanks precedes the marker (the line was entirely a comment). *)
Definition handle_comments (cmd_line : option string) : option string :=
  match cmd_line with
  | Some s =>
      match before_comment true s with
      | Some p => if all_blank p then None else Some p
      | None => Some s
      end
  | None => None
  end.

(** A line made of blanks and then a comment. *)
Definition comment_only (s : string) : Prop :=
  exists ws rest, s = ws +:+ String ch_hash rest /\ all_blank ws = true.

(** *** Tokenizer *)

Fixpoint is_delim (delim : string) (c : ascii) : bool :=
  match delim with
  | EmptyString => false
  | String d r => Ascii.eqb c d || is_delim r c
  end.

Fixpoint all_delim (delim : string) (s : string) : bool :=
  match s with
  | EmptyString => true
  | String c r => is_delim delim c && all_delim delim r
  end.

Fixpoint no_delim (delim : string) (s : string) : bool :=
  match s with
  | EmptyString => true
  | String c r => negb (is_delim delim c) && no_delim delim r
  end.

(** Modelled from the spec: splitting on runs of delimiters.  The maximal
    delimiter-free pieces of [s], left to right. *)
Fixpoint tokens (delim : string) (s : string) : list string :=
  match s with
  | EmptyString => []
  | String c r =>
      if is_delim delim c then tokens delim r
      else match r with
           | EmptyString => [String c EmptyString]
           | String c' _ =>
               if is_delim delim c' then String c EmptyString :: tokens delim r
               else match tokens delim r with
                    | t :: ts => String c t :: ts
                    | [] => [String c EmptyString]
                    end
           end
  end.

(** Modelled from the spec: [tokenize_command], the Tokenizer: the
    TokenVector of a segment, none when the segment holds no token or when
    the vector cannot be allocated. *)
Definition tokenize_command (cmd_line : string) (delim : string)
    : M (option (list string)) :=
  ok <- alloc_ok;;
  if ok then
    match tokens delim cmd_line with
    | [] => ret None
    | t :: ts => ret (Some (t :: ts))
    end
  else ret None.

(** *** Operator Splitter *)

(** Modelled from the spec: [check_for_operator]: the first chaining
    operator of the line ([;], [&&] or [||]), [NULL] when it has none. *)
Fixpoint check_for_operator (cmd_line : string) : option string :=
  match cmd_line with
  | EmptyString => None
  | String c r =>
      if Ascii.eqb c ch_semi then Some ";"
      else match r with
           | String c' _ =>
               if Ascii.eqb c ch_amp && Ascii.eqb c' ch_amp then Some "&&"
               else if Ascii.eqb c ch_bar && Ascii.eqb c' ch_bar then Some "||"
               else check_for_operator r
           | EmptyString => None
           end
  end.

(** The operator in front of a segment. *)
Inductive op_tag : Type := NONE | AND | OR | SEQ.

Record Segment : Type := Seg { seg_op : op_tag; seg_text : string }.

Definition push_char (c : ascii) (segs : list Segment) : list Segment :=
  match segs with
  | Seg t txt :: rest => Seg t (String c txt) :: rest
  | [] => []
  end.

(** Modelled from the spec: the Segments of a line, each tagged with the
    operator that precedes it; [tag] is the operator in front of the text
    being scanned. *)
Fixpoint segments (tag : op_tag) (s : string) : list Segment :=
  match s with
  | EmptyString => [Seg tag EmptyString]
  | String c r =>
      if Ascii.eqb c ch_semi then Seg tag EmptyString :: segments SEQ r
      else match r with
           | String c' r' =>
               if Ascii.eqb c ch_amp && Ascii.eqb c' ch_amp
               then Seg tag EmptyString :: segments AND r'
               else if Ascii.eqb c ch_bar && Ascii.eqb c' ch_bar
               then Seg tag EmptyString :: segments OR r'
               else push_char c (segments tag r)
           | EmptyString => push_char c (segments tag r)
           end
  end.

(** Modelled from the spec: the gate of an operator, given the exit status
    of what ran before: [;] always, [&&] on success, [||] on failure. *)
Definition gate (t : op_tag) (status : Z) : bool :=
  match t with
  | NONE => true
  | SEQ => true
  | AND => status =? 0
  | OR => negb (status =? 0)
  end.

Definition syntax_err_msg : string := "Syntax error: misplaced operator".
(** The specification asks for a non-zero status after a syntax error and
    names none; 2 is the one it gives to the other errors of the shell. *)
Definition syntax_status : Z := 2.

(** Modelled from the spec: the syntax condition of a misplaced operator:
    reported, the exit status set, the rest of the chain given up. *)
Definition syntax_error (argv : list string) (idx : Z) (s : session)
    : M session :=
  print_shell_error (arg argv 0) idx [] syntax_err_msg;;
  log (EvStatus syntax_status);;
  ret (set_exit_status syntax_status s).

Section Splitter.
Variable tk : string -> string -> M (option (list string)).
Variable pc : list string -> list string -> Z -> session -> M session.
Variables (argv : list string) (idx : Z).

(** Modelled from the spec: one segment whose gate is open: tokenize, then
    dispatch; a segment without token vector is passed over. *)
Definition run_segment (text : string) (s : session) : M session :=
  log (EvTokenize text);;
  c <- tk text delim_ws;;
  match c with
  | None => ret s
  | Some c => dispatch pc c argv idx s
  end.

(** Modelled from the spec: the chain, left to right.  Each gate is
    decided when its segment is reached, from the status the session then
    has; an empty segment between two operators is passed over, one at
    either end of the line is a syntax error. *)
Fixpoint run_chain (segs : list Segment) (s : session) : M session :=
  match segs with
  | [] => ret s
  | Seg t text :: rest =>
      if all_delim delim_ws text then
        match t, rest with
        | NONE, [] => ret s
        | NONE, _ :: _ => syntax_error argv idx s  (* the line begins with an operator *)
        | _, [] => syntax_error argv idx s         (* the line ends with an operator *)
        | _, _ :: _ => run_chain rest s            (* nothing between two operators *)
        end
      else if gate t (exit_status s) then
        s' <- run_segment text s;;
        run_chain rest s'
      else run_chain rest s
  end.

(** Modelled from the spec: [handle_operators], the Operator Splitter:
    splits the line at [;], [&&] and [||] and runs the segments whose gate
    is open. *)
Definition handle_operators (cmd_line : string) (operator : string)
    (s : session) : M session :=
  run_chain (segments NONE cmd_line) s.

End Splitter.

(** *** Environment Table *)

(** Modelled from the spec: [set] of the Environment Table: inserts or
    overwrites; reports failure, and changes nothing, when the entry
    cannot be allocated. *)
Definition env_set (name value : string) : M bool :=
  ok <- alloc_ok;;
  if ok then (fun w => Ret true (set_environ (<[name := value]> (environ w)) w))
  else ret false.

(** Modelled from the spec: [unset] of the Environment Table: removes the
    name; a name that is absent is left alone and is a success. *)
Definition env_unset (name : string) : M bool := fun w =>
  match environ w !! name with
  | None => Ret true w
  | Some _ =>
      (ok <- alloc_ok;;
       if ok then (fun w => Ret true (set_environ (delete name (environ w)) w))
       else ret false) w
  end.

(** *** Dispatcher *)

Definition digit (c : ascii) : option Z :=
  let n := Z.of_nat (nat_of_ascii c) in
  if (48 <=? n) && (n <=? 57) then Some (n - 48) else None.

Fixpoint parse_digits (acc : Z) (s : string) : option Z :=
  match s with
  | EmptyString => Some acc
  | String c r =>
      match digit c with
      | Some d => parse_digits (10 * acc + d) r
      | None => None
      end
  end.

(** The operand of [exit], when it is numeric. *)
Definition parse_status (s : string) : option Z :=
  match s with
  | EmptyString => None
  | String _ _ => parse_digits 0 s
  end.

Definition not_found_msg : string := "not found".
Definition illegal_number_msg : string := "Illegal number".

Section Dispatcher.
(** The programs found on the search path, each with the termination code
    it ends with on given arguments. *)
Variable programs : gmap string (list string -> Z).

(** Modelled from the spec: the environment built-ins report a failed
    operation through [print_env_error] and take its result as the exit
    status. *)
Definition env_failure (c argv : list string) (idx : Z) (s : session)
    : M session :=
  st <- print_env_error c (arg argv 0) idx;;
  ret (set_exit_status st s).

Definition builtin_setenv (c argv : list string) (idx : Z) (s : session)
    : M session :=
  match c with
  | [_; name; value] =>
      ok <- env_set name value;;
      if ok then ret (set_exit_status 0 s) else env_failure c argv idx s
  | _ => env_failure c argv idx s
  end.

Definition builtin_unsetenv (c argv : list string) (idx : Z) (s : session)
    : M session :=
  match c with
  | [_; name] =>
      ok <- env_unset name;;
      if ok then ret (set_exit_status 0 s) else env_failure c argv idx s
  | _ => env_failure c argv idx s
  end.

(** Modelled from the spec: [exit [status]]: tears the tables down and ends
    the process with the operand, when it is numeric, or with the last
    exit status. *)
Definition builtin_exit (c argv : list string) (idx : Z) (s : session)
    : M session :=
  let leave (status : Z) : M session :=
    free_aliases (aliases s);; free (new_env s);; exit status in
  match c with
  | _ :: operand :: _ =>
      match parse_status operand with
      | Some n => leave n
      | None =>
          print_shell_error (arg argv 0) idx c illegal_number_msg;;
          ret (set_exit_status 2 s)
      end
  | _ => leave (exit_status s)
  end.

(** Modelled from the spec: [process_command], the Dispatcher: a built-in
    runs in the process and leaves its result code; anything else is
    looked up on the search path, run to its end and leaves its
    termination code, or 127 when it is not found.  (The alias built-ins,
    which nothing below is about, are left out.) *)
Definition process_command (c argv : list string) (idx : Z) (s : session)
    : M session :=
  match c with
  | [] => ret s
  | name :: args =>
      if String.eqb name "exit" then builtin_exit c argv idx s
      else if String.eqb name "setenv" then builtin_setenv c argv idx s
      else if String.eqb name "unsetenv" then builtin_unsetenv c argv idx s
      else match programs !! name with
           | Some run => ret (set_exit_status (run args) s)
           | None =>
               print_shell_error (arg argv 0) idx c not_found_msg;;
               ret (set_exit_status 127 s)
           end
  end.

(** The helpers of [shell.h], as the specification describes them. *)
#[local] Instance lib : ShellLib :=
  Build_ShellLib
    read_command check_for_comments handle_comments check_for_operator
    (fun argv cmd_line operator idx s =>
       handle_operators tokenize_command process_command argv idx
                        cmd_line operator s)
    tokenize_command process_command.

(** The shell with these helpers. *)
Definition shell (fuel : nat) (argc : Z) (argv : list string) : M Z :=
  main fuel argc argv.

End Dispatcher.

(** The table operation behind an environment built-in. *)
Definition env_operation (c : list string) : option (M bool) :=
  match c with
  | [name; var; value] =>
      if String.eqb name "setenv" then Some (env_set var value) else None
  | [name; var] =>
      if String.eqb name "unsetenv" then Some (env_unset var) else None
  | _ => None
  end.

(** The text of an operator, and a chain written back as a line. *)
Definition op_text (t : op_tag) : string :=
  match t with
  | NONE => EmptyString
  | AND => "&&"
  | OR => "||"
  | SEQ => ";"
  end.

Fixpoint render (segs : list Segment) : string :=
  match segs with
  | [] => EmptyString
  | Seg t text :: rest => op_text t +:+ text +:+ render rest
  end.

(** A text without any operator character. *)
Fixpoint plain (s : string) : bool :=
  match s with
  | EmptyString => true
  | String c r =>
      negb (Ascii.eqb c ch_semi) && negb (Ascii.eqb c ch_amp)
      && negb (Ascii.eqb c ch_bar) && plain r
  end.

(** A segment that follows an operator and holds a command. *)
Definition chained (g : Segment) : bool :=
  match seg_op g with
  | NONE => false
  | _ => plain (seg_text g) && negb (all_delim delim_ws (seg_text g))
  end.

End Spec.

(** ** Reading a run *)

Definition value {A} (r : result A) : option A :=
  match r with
  | Ret a _ => Some a
  | _ => None
  end.

Definition free_events (p : option ptr) : list event :=
  match p with
  | Some a => [EvFree a]
  | None => []
  end.

Definition fclose_events (f : option FILE) : list event :=
  match f with
  | Some f => [EvFclose f]
  | None => []
  end.

(** The stream [read_and_handle_comments] reads from. *)
Definition input_stream (file : option FILE) : FILE :=
  match file with
  | Some f => f
  | None => stdin
  end.

Definition newline_events (is_comment : Z) (interactive : bool) : list event :=
  if (is_comment =? 0) && interactive then [EvWrite STDOUT_FILENO str_nl] else [].


(** ** The discipline of the pipeline, as an automaton over traces

    Where the processing of a line stands.  The automaton reads the trace
    of a run and accepts it only when the stages come in order; it carries
    the exit status the session has at each point. *)
Inductive phase : Type :=
| Idle          (* nothing read yet *)
| LineRead      (* a line was asked of the reader *)
| Filtered      (* the Comment Filter saw it *)
| Checked       (* the line was searched for an operator *)
| Splitting     (* the Operator Splitter took the line *)
| Tokenized     (* the Tokenizer took a segment *)
| Dispatching   (* the Dispatcher is running a token vector *)
| Dispatched    (* the Dispatcher returned *)
| Aborted.      (* the chain was given up on a syntax error *)

(** The line is done with: the next one may be read. *)
Definition line_done (p : phase) : bool :=
  match p with
  | Idle | Splitting | Tokenized | Dispatched | Aborted => true
  | _ => false
  end.

(** A segment may be handed to the Tokenizer. *)
Definition segment_due (p : phase) : bool :=
  match p with
  | Checked | Splitting | Tokenized | Dispatched => true
  | _ => false
  end.

Definition pipeline_step (st : phase * Z) (e : event) : option (phase * Z) :=
  let '(p, status) := st in
  match e with
  | EvRead _ => if line_done p then Some (LineRead, status) else None
  | EvCommentFilter _ =>
      match p with LineRead => Some (Filtered, status) | _ => None end
  | EvOperatorCheck _ =>
      match p with Filtered => Some (Checked, status) | _ => None end
  | EvSplit _ =>
      match p with Checked => Some (Splitting, status) | _ => None end
  | EvTokenize _ => if segment_due p then Some (Tokenized, status) else None
  | EvDispatch c status_before =>
      match p, c with
      | Tokenized, _ :: _ =>
          if status_before =? status then Some (Dispatching, status) else None
      | _, _ => None
      end
  | EvStatus status_now =>
      match p with
      | Dispatching => Some (Dispatched, status_now)
      | Splitting | Tokenized | Dispatched => Some (Aborted, status_now)
      | _ => None
      end
  | _ => Some st
  end.

Section Run.
Context {S : Type} (step : S -> event -> option S).

(** The automaton [step] over a list of events. *)
Fixpoint run (s : S) (es : list event) : option S :=
  match es with
  | [] => Some s
  | e :: es' =>
      match step s e with
      | Some s' => run s' es'
      | None => None
      end
  end.

(** A computation whose events the automaton accepts from state [s], and
    which, when it returns, leaves a value and a state that satisfy [Q];
    it always finishes. *)
Definition obeys {A} (c : M A) (s : S) (Q : A -> S -> Prop) : Prop :=
  forall w,
    match c w with
    | Ret a w' =>
        exists es s', trace w' = trace w ++ es /\ run s es = Some s' /\ Q a s'
    | Exit _ w' =>
        exists es s', trace w' = trace w ++ es /\ run s es = Some s'
    | Timeout => False
    end.

End Run.

(** A computation that returns and adds nothing to the trace. *)
Definition silent {A} (c : M A) : Prop :=
  forall w, exists a w', c w = Ret a w' /\ trace w' = trace w.

(** The events no stage of the pipeline is responsible for. *)
Definition neutral (e : event) : bool :=
  match e with
  | EvFopen _ _ | EvFclose _ | EvWrite _ _ | EvFree _ | EvExit _
  | EvFileError _ _ _ | EvShellError _ _ _ _ | EvFreeAliases | EvFreeMemory => true
  | _ => false
  end.

Definition is_dispatch (e : event) : bool :=
  match e with
  | EvDispatch _ _ => true
  | _ => false
  end.

Definition dispatch_nonempty (e : event) : bool :=
  match e with
  | EvDispatch [] _ => false
  | _ => true
  end.

(** The token vectors that reached the Dispatcher, in order. *)
Definition dispatched_in (es : list event) : list (list string) :=
  flat_map (fun e => match e with EvDispatch c _ => [c] | _ => [] end) es.

Definition dispatched {A} (r : result A) : list (list string) :=
  match final r with
  | Some w => dispatched_in (trace w)
  | None => []
  end.

(** How a run ended: the argument of [exit]. *)
Definition exit_code {A} (r : result A) : option Z :=
  match r with
  | Exit n _ => Some n
  | _ => None
  end.

(** ** Termination measures *)

(** A computation that finishes and leaves the open streams alone. *)
Definition keeps {A} (c : M A) : Prop :=
  forall w,
    match c w with
    | Ret _ w' => streams w' = streams w
    | Exit _ w' => streams w' = streams w
    | Timeout => False
    end.

(** The lines of stream [f] that are still unread. *)
Definition pending (f : FILE) (w : world) : nat :=
  length (default [] (streams w !! f)).

(** The lines the session will be offered: those of the script when one is
    named and opens, those of standard input otherwise. *)
Definition lines_available (argc : Z) (argv : list string) (w : world) : nat :=
  if 1 <? argc
  then match fs w !! arg argv 1 with
       | Some content => length content
       | None => O
       end
  else pending stdin w.

(** ** What the trace of a line has to show *)

(** The events of the stages among a list of events. *)
Definition stage_events (es : list event) : list event :=
  List.filter (fun e => negb (neutral e)) es.

(** The segments that hold a command. *)
Definition commands (segs : list Spec.Segment) : list Spec.Segment :=
  List.filter (fun g => negb (Spec.all_delim delim_ws (Spec.seg_text g))) segs.

(** The exit status the Dispatcher leaves for the token vector [c] when the
    session has [status] and memory is plentiful; [None] when it ends the
    process.  It is read off a call of [Spec.process_command] in a world
    with nothing in it. *)
Definition dispatcher_status (programs : gmap string (list string -> Z))
    (c : list string) (status : Z) : option Z :=
  exit_status <$> value (Spec.process_command programs c [] 0 (Session status [] None)
                           (World ∅ ∅ false ∅ [] 0%nat [])).

Section Expected.
(** The status the Dispatcher leaves, by token vector and status before. *)
Variable leaves : list string -> Z -> option Z.

(** The stage events of a chain, segment by segment, when memory is
    plentiful: a segment whose gate is open is tokenized and its tokens are
    dispatched with the status the session has, and what the Dispatcher
    leaves is the status the next gate sees.  The events stop where the
    Dispatcher ends the process.  The second component is the status the
    session has when the chain is through. *)
Fixpoint expect_chain (segs : list Spec.Segment) (status : Z)
    : list event * option Z :=
  match segs with
  | [] => ([], Some status)
  | Spec.Seg t text :: rest =>
      if Spec.all_delim delim_ws text then
        match t, rest with
        | Spec.NONE, [] => ([], Some status)
        | Spec.NONE, _ :: _ =>
            ([EvStatus Spec.syntax_status], Some Spec.syntax_status)
        | _, [] => ([EvStatus Spec.syntax_status], Some Spec.syntax_status)
        | _, _ :: _ => expect_chain rest status
        end
      else if Spec.gate t status then
        match leaves (Spec.tokens delim_ws text) status with
        | Some status' =>
            (EvTokenize text :: EvDispatch (Spec.tokens delim_ws text) status
               :: EvStatus status' :: (expect_chain rest status').1,
             (expect_chain rest status').2)
        | None => ([EvTokenize text; EvDispatch (Spec.tokens delim_ws text) status], None)
        end
      else expect_chain rest status
  end.

(** The stage events of a line without operator. *)
Definition expect_single (line : string) (status : Z) : list event * option Z :=
  match Spec.tokens delim_ws line with
  | [] => ([EvTokenize line], Some status)
  | t :: ts =>
      match leaves (t :: ts) status with
      | Some status' =>
          ([EvTokenize line; EvDispatch (t :: ts) status; EvStatus status'], Some status')
      | None => ([EvTokenize line; EvDispatch (t :: ts) status], None)
      end
  end.

(** The stage events of a line that came through the Comment Filter. *)
Definition expect_line (line : string) (status : Z) : list event * option Z :=
  match Spec.check_for_operator line with
  | Some _ =>
      (EvOperatorCheck line :: EvSplit line
         :: (expect_chain (Spec.segments Spec.NONE line) status).1,
       (expect_chain (Spec.segments Spec.NONE line) status).2)
  | None =>
      (EvOperatorCheck line :: (expect_single line status).1,
       (expect_single line status).2)
  end.

(** What the Comment Filter leaves of a raw line. *)
Definition filtered (raw : string) : option string :=
  if Spec.check_for_comments (Some raw) =? 1 then Spec.handle_comments (Some raw)
  else Some raw.

(** The stage events of the pass that reads [raw] from stream [f]; no
    status where the pass ends the process. *)
Definition expect_pass (f : FILE) (raw : string) (status : Z)
    : list event * option Z :=
  match filtered raw with
  | None => ([EvRead f; EvCommentFilter (Some raw)], None)
  | Some line =>
      (EvRead f :: EvCommentFilter (Some raw) :: (expect_line line status).1,
       (expect_line line status).2)
  end.

End Expected.

(** When the segment behind operator [t] is run, by the chaining rules:
    always after [;], on success after [&&], on failure after [||]. *)
Definition runs_after (t : Spec.op_tag) (status : Z) : Prop :=
  t = Spec.SEQ \/ (t = Spec.AND /\ status = 0) \/ (t = Spec.OR /\ status <> 0).

(** ** Allocation in the reader *)

(** A pass that skips its line: it comes back, the session as it was. *)
Definition skips_line `{ShellLib} (argc : Z) (argv : list string) (l : locals)
    (w : world) : Prop :=
  exists l' w', loop_body argc argv l w = Ret l' w' /\ ses l' = ses l.

Module Scarce.

(** Modelled from the spec: [read_command] with the allocation of its line
    buffer made explicit: the next line of the stream, [NULL] when the
    buffer cannot be allocated (the line then stays unread) or when the
    stream is exhausted. *)
Definition read_command (f : FILE) (argc : Z) : M (option string) :=
  ok <- alloc_ok;;
  if ok then Spec.read_command f argc else ret None.

(** The helpers of the specification, with this reader. *)
Definition lib (programs : gmap string (list string -> Z)) : ShellLib :=
  Build_ShellLib
    read_command Spec.check_for_comments Spec.handle_comments
    Spec.check_for_operator
    (fun argv cmd_line operator idx s =>
       Spec.handle_operators Spec.tokenize_command (Spec.process_command programs)
                             argv idx cmd_line operator s)
    Spec.tokenize_command (Spec.process_command programs).

End Scarce.

(** ** The range of [int] *)

Definition INT_MAX : Z := 2147483647.
Definition INT_MIN : Z := -2147483648.

(** ** Passes of the loop *)

(** [n] consecutive passes through a loop body, each started from the locals
    the one before left. *)
Fixpoint passes (n : nat) (body : locals -> M locals) (l : locals) : M locals :=
  match n with
  | O => ret l
  | S n' => l' <- body l;; passes n' body l'
  end.

(** The world a run stopped in, [w0] when it did not stop. *)
Definition world_after {A} (r : result A) (w0 : world) : world :=
  match final r with
  | Some w => w
  | None => w0
  end.

(** ** Sample sessions *)

Module Demo.

(** Three programs on the search path. *)
Definition programs : gmap string (list string -> Z) :=
  <["true" := fun _ => 0]> (<["false" := fun _ => 1]> (<["echo" := fun _ => 0]> ∅)).

Definition lib : ShellLib := Spec.lib programs.

(** A line as the reader delivers it, newline included. *)
Definition line (s : string) : string := s +:+ str_nl.

(** A session on standard input, before its first line. *)
Definition at_stdin : locals := Locals (Session 0 [] None) 0 0 None None.

(** A session four lines into a script, the last command having left 7. *)
Definition script : FILE := 3%nat.
Definition at_script : locals :=
  Locals (Session 7 [] (Some 0%nat)) 4 0 (Some script) None.

Definition world_of (lines : list string) (o : list bool) (t : bool) : world :=
  World ∅ {[stdin := lines]} t ∅ o 0%nat [].

Definition script_world (lines : list string) (t : bool) : world :=
  World ∅ (<[script := lines]> {[stdin := []]}) t ∅ [] 1%nat [].

Definition after_read (f : FILE) (rest : list string) (w : world) : world :=
  set_streams (<[f := rest]> (streams w)) (emit (EvRead f) w).

(** A line whose token vector cannot be allocated: the worlds before the
    line, after the Comment Filter, and after the Tokenizer gave up. *)
Definition skipped_line : string := line "echo hi".
Definition skip0 : world := world_of [skipped_line; line "true"] [true] false.
Definition skip1 : world :=
  emit (EvCommentFilter (Some skipped_line)) (after_read stdin [line "true"] skip0).
Definition skip2 : world :=
  set_oracle [] (emit (EvTokenize skipped_line) (emit (EvOperatorCheck skipped_line) skip1)).

(** A comment-only line with a command behind it. *)
Definition note : string := line "  # list the files".
Definition noted : world := world_of [note; line "echo hi"] [] false.

(** [setenv] when the entry cannot be allocated: the worlds before the
    line, after the Comment Filter, after the Tokenizer, and after the
    failed table operation. *)
Definition setenv_line : string := line "setenv EDITOR vi".
Definition setenv_cmd : list string := ["setenv"; "EDITOR"; "vi"].
Definition env0 : world := world_of [setenv_line; line "echo hi"] [false; true] false.
Definition env1 : world :=
  emit (EvCommentFilter (Some setenv_line)) (after_read stdin [line "echo hi"] env0).
Definition env2 : world :=
  set_oracle [true] (emit (EvTokenize setenv_line) (emit (EvOperatorCheck setenv_line) env1)).
Definition env3 : world := set_oracle [] (emit (EvDispatch setenv_cmd 0) env2).

(** Two commands on standard input, and the worlds after the first and
    after both have been handled. *)
Definition two_lines : world := world_of [line "false"; line "true"] [] false.
Definition after_first : world :=
  world_after (passes 1 (loop_body (H := lib) 1 ["hsh"]) at_stdin two_lines) two_lines.
Definition after_both : world :=
  world_after (passes 2 (loop_body (H := lib) 1 ["hsh"]) at_stdin two_lines) two_lines.

(** One failing command, then the end of the input. *)
Definition one_line : world := world_of [line "false"] [] true.
Definition after_one : world :=
  world_after (passes 1 (loop_body (H := lib) 1 ["hsh"]) at_stdin one_line) one_line.

Definition one_line_end : world :=
  world_after (do_while 3 (loop_body (H := lib) 1 ["hsh"]) (fun _ => true)
                 at_stdin one_line) one_line.

(** One command handed to [handle_command_exec] directly. *)
Definition false_handled : world :=
  world_after (handle_command_exec (H := lib) None (line "false") ["hsh"] 1
                 (Session 0 [] None) (world_of [] [] false)) (world_of [] [] false).

(** No input at all, on a terminal; the world once [main] has its buffer. *)
Definition no_input : world := world_of [] [] true.
Definition no_input_started : world := set_brk 1%nat no_input.

(** A script that can be opened. *)
Definition with_script : world :=
  World {["build.sh" := [line "true"; line "false"]]} {[stdin := [line "echo no"]]}
        false ∅ [] 0%nat [].
Definition with_script_started : world := set_brk 1%nat with_script.

(** A script that has been read to its end, with a terminal on standard
    input. *)
Definition script_done : world := script_world [] true.

(** Two commands, and memory for [main]'s buffer but not for the reader's. *)
Definition starved : world :=
  world_of [line "echo a"; line "echo b"] [false; true] false.
Definition starved_started : world := set_brk 1%nat (set_oracle [true] starved).
Definition at_started : locals := Locals (Session 0 [] (Some 0%nat)) 0 0 None None.

(** A session whose command index is as large as an [int] can be. *)
Definition at_last_index : locals := Locals (Session 0 [] None) INT_MAX 0 None None.

(** A chain of four segments, its front part, and the worlds around it. *)
Definition chain_line : string := "false || echo a && echo b ; false".
Definition chain_start : world :=
  emit (EvSplit chain_line) (emit (EvOperatorCheck chain_line) (world_of [] [] false)).
Definition chain_front : list Spec.Segment :=
  [Spec.Seg Spec.NONE "false "].
Definition chain_front_done : world :=
  world_after (Spec.run_chain Spec.tokenize_command (Spec.process_command programs)
                 ["hsh"] 1 chain_front (Session 0 [] None) chain_start) chain_start.

(** A line of two commands, first on standard input. *)
Definition piped : world := world_of [line "false || echo b"; line "true"] [] false.

(** The stages a chain is run with. *)
Definition tk := Spec.tokenize_command.
Definition pc := Spec.process_command programs.
Definition fresh_session : session := Session 0 [] None.

End Demo.
(** * Properties *)

Lemma malloc_cases n w :
  exists p w', malloc n w = Ret p w' /\ fs w' = fs w /\ streams w' = streams w
    /\ trace w' = trace w /\ tty w' = tty w /\ environ w' = environ w.
Proof.
  unfold malloc, bind, alloc_ok, ret.
  destruct (oracle w) as [|[] o]; simpl; eauto 10.
Qed.

(** C10: [print_env_error] returns 2 for every command, shell name and
    command index, never -1, and does nothing but report the error. *)
Theorem print_env_error_returns_2 (c : list string) (shell_name : string) (idx : Z) (w : world) :
  value (print_env_error c shell_name idx w) = Some 2
  /\ value (print_env_error c shell_name idx w) <> Some (-1)
  /\ final (print_env_error c shell_name idx w)
     = Some (emit (EvShellError shell_name idx c env_err_msg) w).
Proof. repeat split. discriminate. Qed.

Section SourceFacts.
Context `{ShellLib}.

(** C3: a script that cannot be opened.  Started with a script argument
    that [fopen] cannot open, [main] reports the file-open error, frees
    [new_env] and ends in [exit(2)], whatever the loop bound: no line is
    read, no stream is touched and no stage of the pipeline is entered. *)
Theorem open_failure_exits_2 (fuel : nat) (argc : Z) (argv : list string) (path : string) (w : world) :
  1 < argc ->
  argv !! 1%nat = Some path ->
  fs w !! path = None ->
  exists p w',
    main fuel argc argv w = Exit 2 w'
    /\ trace w' = trace w ++ [EvFopen path false; EvFileError (arg argv 0) 0 path]
                          ++ free_events p ++ [EvExit 2]
    /\ streams w' = streams w.
Proof.
  intros Hargc Hpath Hfs.
  destruct (malloc_cases 1024 w) as (p & w1 & Hm & Hfs1 & Hst1 & Htr1 & _).
  assert (Harg : arg argv 1 = path).
  { unfold arg. destruct argv as [|a0 [|a1 rest]]; simpl in *; congruence. }
  exists p.
  unfold main, bind at 1. rewrite Hm.
  apply Z.ltb_lt in Hargc. rewrite Hargc.
  unfold bind, fopen. rewrite Harg, Hfs1, Hfs. simpl.
  destruct p as [a|]; simpl; eexists; (split; [reflexivity|]); simpl;
    rewrite Htr1, Hst1, <- ?app_assoc; done.
Qed.

Lemma handle_exit_exits (ic st : Z) (f : option FILE) (ne : option ptr) (w : world) :
  exists w',
    handle_exit ic st f ne w = Exit st w'
    /\ trace w' = trace w ++ fclose_events f ++ newline_events ic (tty w)
                          ++ free_events ne ++ [EvExit st]
    /\ streams w' = match f with
                    | Some f => delete f (streams w)
                    | None => streams w
                    end.
Proof.
  unfold handle_exit, newline_events, bind.
  destruct f as [f|], (ic =? 0), (tty w) eqn:Ht, ne as [a|]; simpl;
    unfold isatty, bind, write, log, ret, exit; simpl; rewrite ?Ht; simpl;
    eexists; (split; [reflexivity|]); simpl;
    rewrite <- ?app_assoc, ?app_nil_r; done.
Qed.

Lemma read_and_handle_comments_eq (file : option FILE) (argc : Z) (w : world) :
  read_and_handle_comments file argc w =
  match read_command (input_stream file) argc (emit (EvRead (input_stream file)) w) with
  | Ret cmd_line w1 =>
      let ic := check_for_comments cmd_line in
      Ret (if ic =? 1 then handle_comments cmd_line else cmd_line, ic)
          (emit (EvCommentFilter cmd_line) w1)
  | Exit st w1 => Exit st w1
  | Timeout => Timeout
  end.
Proof.
  unfold read_and_handle_comments, bind, log, ret.
  destruct file as [f|]; simpl;
    destruct (read_command _ argc _); reflexivity.
Qed.

Lemma do_while_forever (fuel : nat) (body : locals -> M locals) (l : locals) (w : world) :
  forall l' w', do_while fuel body (fun _ => true) l w <> Ret l' w'.
Proof.
  revert l w. induction fuel as [|fuel IH]; intros l w l' w'; simpl; [discriminate|].
  unfold bind. destruct (body l w) as [l1 w1| |]; try discriminate.
  apply IH.
Qed.

Lemma main_never_returns (fuel : nat) (argc : Z) (argv : list string) (w : world) :
  forall v w', main fuel argc argv w <> Ret v w'.
Proof.
  intros v w'. unfold main.
  unfold bind at 1. destruct (malloc 1024 w) as [p w1| |]; try discriminate.
  unfold bind at 1.
  match goal with |- context [match ?c w1 with _ => _ end] => destruct (c w1) as [l1 w2| |] end;
    try discriminate.
  unfold bind at 1.
  destruct (do_while fuel _ _ l1 w2) as [l2 w3| |] eqn:Hd; try discriminate.
  by apply do_while_forever in Hd.
Qed.

Lemma loop_body_null_line (fuel : nat) (argc : Z) (argv : list string)
    (l : locals) (ic : Z) (w w1 : world) :
  read_and_handle_comments (file l) argc w = Ret (None, ic) w1 ->
  exists w2,
    handle_exit ic (exit_status (ses l)) (file l) (new_env (ses l)) w1
      = Exit (exit_status (ses l)) w2
    /\ loop_body argc argv l w = Exit (exit_status (ses l)) w2
    /\ do_while (S fuel) (loop_body argc argv) (fun _ => true) l w
       = Exit (exit_status (ses l)) w2.
Proof.
  intros Hr.
  destruct (handle_exit_exits ic (exit_status (ses l)) (file l) (new_env (ses l)) w1)
    as (w2 & He & _).
  exists w2. split; [exact He|].
  assert (Hb : loop_body argc argv l w = Exit (exit_status (ses l)) w2).
  { unfold loop_body, bind at 1. rewrite Hr. simpl.
    unfold bind at 1. by rewrite He. }
  split; [exact Hb|]. simpl. unfold bind. by rewrite Hb.
Qed.

(** C9: a null line ends the process.  Whenever
    [read_and_handle_comments] returns a null line, whatever the comment
    flag, the pass through the loop ends in [handle_exit], which always
    leaves through [exit] with the status it is given; so the loop of
    [main] is never left normally and [main] never returns: the statements
    behind the loop are never reached. *)
Theorem null_line_exits (fuel : nat) (argc : Z) (argv : list string)
    (l : locals) (ic : Z) (w w1 : world) :
  read_and_handle_comments (file l) argc w = Ret (None, ic) w1 ->
  (exists w2,
      handle_exit ic (exit_status (ses l)) (file l) (new_env (ses l)) w1
        = Exit (exit_status (ses l)) w2
      /\ loop_body argc argv l w = Exit (exit_status (ses l)) w2
      /\ do_while (S fuel) (loop_body argc argv) (fun _ => true) l w
         = Exit (exit_status (ses l)) w2)
  /\ (forall is_comment status f p w0, exists w',
        handle_exit is_comment status f p w0 = Exit status w')
  /\ (forall l' w', do_while fuel (loop_body argc argv) (fun _ => true) l w <> Ret l' w')
  /\ (forall w0 v w', main fuel argc argv w0 <> Ret v w').
Proof.
  intros Hr. split; [by apply loop_body_null_line|]. split; [|split].
  - intros ic' status f p w0.
    destruct (handle_exit_exits ic' status f p w0) as (w' & He & _). eauto.
  - apply do_while_forever.
  - intros w0. apply main_never_returns.
Qed.

(** C1: what the code does with a comment-only line.  When the line just
    read is one the Comment Filter reports as entirely a comment (flag 1,
    no line left), [main] takes its null-line branch and calls
    [handle_exit], which leaves through [exit] with the exit status.  The
    Dispatcher is not invoked, but neither is another line read: the
    session is over, exactly as at end-of-input save for the newline. *)
Theorem comment_line_ends_session (fuel : nat) (argc : Z) (argv : list string)
    (l : locals) (s : string) (w w1 : world) :
  read_command (input_stream (file l)) argc (emit (EvRead (input_stream (file l))) w)
    = Ret (Some s) w1 ->
  check_for_comments (Some s) = 1 ->
  handle_comments (Some s) = None ->
  exists w2,
    loop_body argc argv l w = Exit (exit_status (ses l)) w2
    /\ do_while (S fuel) (loop_body argc argv) (fun _ => true) l w
       = Exit (exit_status (ses l)) w2
    /\ trace w2 = trace w1 ++ [EvCommentFilter (Some s)]
                   ++ fclose_events (file l) ++ free_events (new_env (ses l))
                   ++ [EvExit (exit_status (ses l))]
    /\ streams w2 = match file l with
                    | Some f => delete f (streams w1)
                    | None => streams w1
                    end.
Proof.
  intros Hr Hflag Hnull.
  pose proof (read_and_handle_comments_eq (file l) argc w) as Hrh.
  rewrite Hr in Hrh. cbn zeta in Hrh. rewrite Hflag in Hrh.
  change (1 =? 1) with true in Hrh. cbn iota in Hrh. rewrite Hnull in Hrh.
  destruct (loop_body_null_line fuel argc argv l 1 w _ Hrh) as (w2 & He & Hb & Hd).
  exists w2. split; [exact Hb|]. split; [exact Hd|].
  destruct (handle_exit_exits 1 (exit_status (ses l)) (file l) (new_env (ses l))
              (emit (EvCommentFilter (Some s)) w1)) as (w2' & He' & Ht & Hs).
  rewrite He in He'. injection He' as <-.
  split; [|exact Hs].
  rewrite Ht. unfold newline_events. cbn [Z.eqb andb emit trace].
  rewrite <- !app_assoc. reflexivity.
Qed.

(** C4: what the code does at end-of-input.  When the reader has no
    further line (and the comment flag of a missing line is 0), the pass
    through the loop ends the process: the open script file, if any, is
    closed first, then a newline is written whenever standard input is a
    terminal, also when the lines came from a script file and the session
    was not interactive, then [new_env] is released, and the process exits
    with the session's last exit status. *)
Theorem end_of_input_exit (argc : Z) (argv : list string) (l : locals) (w w1 : world) :
  read_command (input_stream (file l)) argc (emit (EvRead (input_stream (file l))) w)
    = Ret None w1 ->
  check_for_comments None = 0 ->
  exists w2,
    loop_body argc argv l w = Exit (exit_status (ses l)) w2
    /\ trace w2 = trace w1 ++ [EvCommentFilter None]
                   ++ fclose_events (file l)
                   ++ (if tty w1 then [EvWrite STDOUT_FILENO str_nl] else [])
                   ++ free_events (new_env (ses l))
                   ++ [EvExit (exit_status (ses l))]
    /\ streams w2 = match file l with
                    | Some f => delete f (streams w1)
                    | None => streams w1
                    end.
Proof.
  intros Hr Hc.
  pose proof (read_and_handle_comments_eq (file l) argc w) as Hrh.
  rewrite Hr in Hrh. simpl in Hrh. rewrite Hc in Hrh. simpl in Hrh.
  destruct (handle_exit_exits 0 (exit_status (ses l)) (file l) (new_env (ses l))
              (emit (EvCommentFilter None) w1)) as (w2 & He & Ht & Hs).
  exists w2. split; [|split].
  - unfold loop_body, bind at 1. rewrite Hrh. simpl. unfold bind at 1. by rewrite He.
  - rewrite Ht. simpl. unfold newline_events. simpl. by rewrite <- app_assoc.
  - exact Hs.
Qed.

End SourceFacts.

(** ** Traces and the automaton *)

Section RunFacts.
Context {S : Type} (step : S -> event -> option S).

Lemma run_app (s : S) (es1 es2 : list event) :
  run step s (es1 ++ es2) =
  match run step s es1 with
  | Some s' => run step s' es2
  | None => None
  end.
Proof.
  revert s. induction es1 as [|e es1 IH]; intros s; simpl; [done|].
  destruct (step s e); [apply IH | done].
Qed.

Lemma obeys_ret {A} (a : A) (s : S) (Q : A -> S -> Prop) :
  Q a s -> obeys step (ret a) s Q.
Proof.
  intros HQ w. simpl. exists [], s. by rewrite app_nil_r.
Qed.

Lemma obeys_bind {A B} (c : M A) (k : A -> M B) (s : S)
    (Q1 : A -> S -> Prop) (Q : B -> S -> Prop) :
  obeys step c s Q1 ->
  (forall a s', Q1 a s' -> obeys step (k a) s' Q) ->
  obeys step (bind c k) s Q.
Proof.
  intros Hc Hk w. unfold bind. specialize (Hc w).
  destruct (c w) as [a w1|n w1|]; [|exact Hc|exact Hc].
  destruct Hc as (es1 & s1 & Ht1 & Hr1 & HQ1).
  specialize (Hk a s1 HQ1 w1).
  destruct (k a w1) as [b w2|n w2|]; [| |exact Hk].
  - destruct Hk as (es2 & s2 & Ht2 & Hr2 & HQ2).
    exists (es1 ++ es2), s2. rewrite Ht2, Ht1, app_assoc, run_app, Hr1. done.
  - destruct Hk as (es2 & s2 & Ht2 & Hr2).
    exists (es1 ++ es2), s2. rewrite Ht2, Ht1, app_assoc, run_app, Hr1. done.
Qed.

Lemma obeys_log (e : event) (s s' : S) (Q : unit -> S -> Prop) :
  step s e = Some s' -> Q tt s' -> obeys step (log e) s Q.
Proof.
  intros Hs HQ w. simpl. exists [e], s'. simpl. by rewrite Hs.
Qed.

Lemma obeys_exit {A} (n : Z) (s s' : S) (Q : A -> S -> Prop) :
  step s (EvExit n) = Some s' -> obeys step (exit n) s Q.
Proof.
  intros Hs w. simpl. exists [EvExit n], s'. simpl. by rewrite Hs.
Qed.

Lemma obeys_silent {A} (c : M A) (s : S) (Q : A -> S -> Prop) :
  silent c -> (forall a, Q a s) -> obeys step c s Q.
Proof.
  intros Hc HQ w. destruct (Hc w) as (a & w' & -> & Ht).
  exists [], s. by rewrite app_nil_r.
Qed.

Lemma obeys_weaken {A} (c : M A) (s : S) (Q Q' : A -> S -> Prop) :
  obeys step c s Q -> (forall a s', Q a s' -> Q' a s') -> obeys step c s Q'.
Proof.
  intros Hc HQ w. specialize (Hc w).
  destruct (c w) as [a w1|n w1|]; [|exact Hc|exact Hc].
  destruct Hc as (es & s' & ? & ? & ?). exists es, s'. auto.
Qed.

End RunFacts.

Lemma silent_alloc_ok : silent alloc_ok.
Proof.
  intros w. unfold alloc_ok. destruct (oracle w) as [|b o]; eauto.
Qed.

Lemma silent_read_command (f : FILE) (argc : Z) : silent (Spec.read_command f argc).
Proof.
  intros w. unfold Spec.read_command.
  destruct (streams w !! f) as [[|line rest]|]; eauto.
Qed.

Lemma silent_env_set (name value : string) : silent (Spec.env_set name value).
Proof.
  intros w. unfold Spec.env_set, bind, alloc_ok, ret.
  destruct (oracle w) as [|[] o]; simpl; eauto.
Qed.

Lemma silent_env_unset (name : string) : silent (Spec.env_unset name).
Proof.
  intros w. unfold Spec.env_unset, bind, alloc_ok, ret.
  destruct (environ w !! name); [|eauto].
  destruct (oracle w) as [|[] o]; simpl; eauto.
Qed.

(** ** The pipeline obeys its discipline *)

Section RunRules.
Context {S : Type} (step : S -> event -> option S).

Lemma obeys_log_bind {B} (e : event) (k : unit -> M B) (s s' : S)
    (Q : B -> S -> Prop) :
  step s e = Some s' -> obeys step (k tt) s' Q -> obeys step (bind (log e) k) s Q.
Proof.
  intros Hs Hk. eapply obeys_bind.
  - eapply obeys_log with (Q := fun _ x => x = s'); [exact Hs | reflexivity].
  - intros [] x ->. exact Hk.
Qed.

Lemma obeys_silent_bind {A B} (c : M A) (k : A -> M B) (s : S)
    (Q : B -> S -> Prop) :
  silent c -> (forall a, obeys step (k a) s Q) -> obeys step (bind c k) s Q.
Proof.
  intros Hc Hk. eapply obeys_bind.
  - apply obeys_silent with (Q := fun _ x => x = s); [exact Hc | reflexivity].
  - intros a x ->. apply Hk.
Qed.

Lemma obeys_quiet_bind {A B} (c : M A) (k : A -> M B) (s : S)
    (P : A -> Prop) (Q : B -> S -> Prop) :
  (forall w, exists a w', c w = Ret a w' /\ trace w' = trace w /\ P a) ->
  (forall a, P a -> obeys step (k a) s Q) -> obeys step (bind c k) s Q.
Proof.
  intros Hc Hk. eapply obeys_bind with (Q1 := fun a x => x = s /\ P a).
  - intros w. destruct (Hc w) as (a & w' & -> & Ht & HP).
    exists [], s. by rewrite app_nil_r.
  - intros a x [-> HP]. by apply Hk.
Qed.

End RunRules.

Lemma tokenize_cases (line delim : string) (w : world) :
  exists a w',
    Spec.tokenize_command line delim w = Ret a w' /\ trace w' = trace w
    /\ (a = None \/ (a = Some (Spec.tokens delim line) /\ Spec.tokens delim line <> [])).
Proof.
  unfold Spec.tokenize_command, bind, alloc_ok, ret.
  destruct (oracle w) as [|[] o]; simpl; destruct (Spec.tokens delim line);
    eexists _, _; (split; [reflexivity|]); (split; [reflexivity|]); auto;
    right; done.
Qed.

Lemma pipeline_neutral (e : event) (st : phase * Z) :
  neutral e = true -> pipeline_step st e = Some st.
Proof. destruct st, e; simpl; congruence. Qed.

Abbreviation pobeys := (obeys pipeline_step).

Ltac neutral_step :=
  first
    [ apply obeys_ret
    | eapply obeys_log_bind; [apply pipeline_neutral; reflexivity|]
    | eapply obeys_log; [apply pipeline_neutral; reflexivity|]
    | eapply obeys_exit; apply pipeline_neutral; reflexivity
    | eapply obeys_silent_bind; [first [apply silent_env_set | apply silent_env_unset
                                       | apply silent_alloc_ok]|intros ?] ].

Lemma free_obeys_bind {B} (p : option ptr) (k : unit -> M B) (st : phase * Z)
    (Q : B -> phase * Z -> Prop) :
  pobeys (k tt) st Q -> pobeys (bind (free p) k) st Q.
Proof.
  intros Hk. destruct p as [a|]; simpl.
  - eapply obeys_log_bind; [apply pipeline_neutral; reflexivity | exact Hk].
  - eapply obeys_silent_bind; [|intros []; exact Hk].
    intros w. by exists tt, w.
Qed.

Section SpecPipeline.
Import Spec.
Variable programs : gmap string (list string -> Z).

Lemma env_failure_obeys c argv idx s st :
  pobeys (env_failure c argv idx s) st (fun _ x => x = st).
Proof.
  unfold env_failure, print_env_error, print_shell_error.
  eapply obeys_bind with (Q1 := fun _ x => x = st).
  - repeat neutral_step. reflexivity.
  - intros a x ->. by apply obeys_ret.
Qed.

Lemma process_command_obeys c argv idx s st :
  pobeys (process_command programs c argv idx s) st (fun _ x => x = st).
Proof.
  unfold process_command.
  destruct c as [|name args]; [by apply obeys_ret|].
  destruct (String.eqb name "exit").
  { unfold builtin_exit, free_aliases, print_shell_error.
    destruct args as [|operand args'].
    - neutral_step. apply free_obeys_bind. neutral_step.
    - destruct (parse_status operand).
      + neutral_step. apply free_obeys_bind. neutral_step.
      + repeat neutral_step. reflexivity. }
  destruct (String.eqb name "setenv").
  { unfold builtin_setenv.
    destruct args as [|a1 [|a2 [|a3 rest]]]; try apply env_failure_obeys.
    neutral_step. destruct a; [by apply obeys_ret | apply env_failure_obeys]. }
  destruct (String.eqb name "unsetenv").
  { unfold builtin_unsetenv.
    destruct args as [|a1 [|a2 rest]]; try apply env_failure_obeys.
    neutral_step. destruct a; [by apply obeys_ret | apply env_failure_obeys]. }
  unfold print_shell_error.
  destruct (programs !! name); repeat neutral_step; reflexivity.
Qed.

Lemma dispatch_obeys c argv idx s :
  c <> [] ->
  pobeys (dispatch (process_command programs) c argv idx s)
         (Tokenized, exit_status s)
         (fun s' x => x = (Dispatched, exit_status s')).
Proof.
  intros Hc. unfold dispatch.
  eapply obeys_log_bind.
  { destruct c; [done|]. simpl. by rewrite Z.eqb_refl. }
  eapply obeys_bind; [apply process_command_obeys|].
  intros s' x ->. simpl.
  eapply obeys_log_bind; [reflexivity|]. by apply obeys_ret.
Qed.

Lemma tokenize_then_dispatch_obeys text argv idx s p :
  segment_due p = true ->
  pobeys (log (EvTokenize text);;
          c <- tokenize_command text delim_ws;;
          match c with
          | None => ret s
          | Some c => dispatch (process_command programs) c argv idx s
          end)
         (p, exit_status s)
         (fun s' x => exists p', x = (p', exit_status s') /\ line_done p' = true
                                 /\ segment_due p' = true).
Proof.
  intros Hp.
  eapply obeys_log_bind; [simpl; by rewrite Hp|].
  eapply obeys_quiet_bind; [apply tokenize_cases|].
  intros c [->|[-> Hne]].
  - apply obeys_ret. by exists Tokenized.
  - eapply obeys_weaken; [by apply dispatch_obeys|].
    intros s' x ->. by exists Dispatched.
Qed.

Lemma syntax_error_obeys argv idx s p :
  line_done p = true -> p <> Idle -> p <> Aborted ->
  pobeys (syntax_error argv idx s) (p, exit_status s)
         (fun s' x => x = (Aborted, exit_status s')).
Proof.
  intros Hp Hi Ha. unfold syntax_error, print_shell_error.
  neutral_step.
  eapply obeys_log_bind.
  { destruct p; simpl in *; done. }
  by apply obeys_ret.
Qed.

Lemma run_chain_obeys argv idx segs : forall s p,
  segment_due p = true -> line_done p = true ->
  pobeys (run_chain tokenize_command (process_command programs) argv idx segs s)
         (p, exit_status s)
         (fun s' x => exists p', x = (p', exit_status s') /\ line_done p' = true).
Proof.
  induction segs as [|[t text] rest IH]; intros s p Hd Hl; simpl.
  - apply obeys_ret. by exists p.
  - assert (Hsyn : pobeys (syntax_error argv idx s) (p, exit_status s)
                     (fun s' x => exists p', x = (p', exit_status s')
                                             /\ line_done p' = true)).
    { eapply obeys_weaken;
        [apply syntax_error_obeys; [done | by destruct p | by destruct p]|].
      intros s' x ->. by exists Aborted. }
    destruct (all_delim delim_ws text).
    + destruct t, rest; try exact Hsyn; by apply IH.
    + destruct (gate t (exit_status s)); [|by apply IH].
      eapply obeys_bind; [by apply tokenize_then_dispatch_obeys|].
      intros s' x (p' & -> & Hl' & Hd'). by apply IH.
Qed.

Lemma handle_command_exec_obeys c line argv idx s :
  pobeys (handle_command_exec (H := lib programs) c line argv idx s)
         (Filtered, exit_status s)
         (fun s' x => exists p', x = (p', exit_status s') /\ line_done p' = true).
Proof.
  unfold handle_command_exec.
  eapply obeys_log_bind; [reflexivity|].
  simpl. destruct (check_for_operator line) as [op|].
  - eapply obeys_log_bind; [reflexivity|].
    unfold handle_operators. by apply run_chain_obeys.
  - eapply obeys_weaken; [by apply tokenize_then_dispatch_obeys|].
    intros s' x (p' & -> & Hl' & _). by exists p'.
Qed.

End SpecPipeline.

Lemma run_neutral (es : list event) (st : phase * Z) :
  forallb neutral es = true -> run pipeline_step st es = Some st.
Proof.
  induction es as [|e es IH]; simpl; [done|].
  intros [He Hes] % andb_prop. rewrite pipeline_neutral by done. by apply IH.
Qed.

Lemma run_dispatch_nonempty (es : list event) : forall st st',
  run pipeline_step st es = Some st' -> forallb dispatch_nonempty es = true.
Proof.
  induction es as [|e es IH]; intros st st'; simpl; [done|].
  destruct (pipeline_step st e) as [st1|] eqn:Hs; [|done].
  intros Hr. rewrite (IH _ _ Hr), andb_true_r.
  destruct e; try done. destruct st as [p status], p, cmd0; simpl in Hs; done.
Qed.

Lemma neutral_free_events p : forallb neutral (free_events p) = true.
Proof. by destruct p. Qed.

Lemma neutral_handle_exit_events ic t f ne st :
  forallb neutral (fclose_events f ++ newline_events ic t ++ free_events ne ++ [EvExit st])
  = true.
Proof.
  unfold newline_events.
  destruct f, ne, ((ic =? 0) && t); reflexivity.
Qed.

Section SpecLoop.
Import Spec.
Variable programs : gmap string (list string -> Z).
Let L := lib programs.

Lemma handle_exit_obeys {A} ic status f ne st (Q : A -> phase * Z -> Prop)
    (k : unit -> M A) :
  pobeys (bind (handle_exit ic status f ne) k) st Q.
Proof.
  intros w. unfold bind.
  destruct (handle_exit_exits ic status f ne w) as (w' & -> & Ht & _).
  eexists _, st. split; [exact Ht|]. apply run_neutral, neutral_handle_exit_events.
Qed.

Lemma read_and_handle_comments_obeys f argc p status :
  line_done p = true ->
  pobeys (read_and_handle_comments (H := L) f argc) (p, status)
         (fun _ x => x = (Filtered, status)).
Proof.
  intros Hp. unfold read_and_handle_comments.
  eapply obeys_bind with (Q1 := fun _ x => x = (LineRead, status)).
  - destruct f as [f|];
      (eapply obeys_log_bind; [simpl; by rewrite Hp|]);
      (apply obeys_silent; [apply silent_read_command | done]).
  - intros line x ->.
    eapply obeys_log_bind; [reflexivity|]. by apply obeys_ret.
Qed.

Lemma loop_body_obeys argc argv l p :
  line_done p = true ->
  pobeys (loop_body (H := L) argc argv l) (p, exit_status (ses l))
         (fun l' x => exists p', x = (p', exit_status (ses l'))
                                 /\ line_done p' = true).
Proof.
  intros Hp. unfold loop_body.
  eapply obeys_bind; [by apply read_and_handle_comments_obeys|].
  intros [cmd_line ic] x ->. simpl.
  destruct cmd_line as [line|].
  - eapply obeys_bind; [apply handle_command_exec_obeys|].
    intros s' x (p' & -> & Hl). apply obeys_ret. by exists p'.
  - apply handle_exit_obeys.
Qed.

(** The whole loop: every run that ends is accepted, and none returns. *)
Lemma do_while_accepted fuel argc argv : forall l w p,
  line_done p = true ->
  match do_while fuel (loop_body (H := L) argc argv) (fun _ => true) l w with
  | Ret _ _ => False
  | Exit _ w' =>
      exists es st', trace w' = trace w ++ es
                     /\ run pipeline_step (p, exit_status (ses l)) es = Some st'
  | Timeout => True
  end.
Proof.
  induction fuel as [|fuel IH]; intros l w p Hp; simpl; [done|].
  unfold bind. pose proof (loop_body_obeys argc argv l p Hp w) as Hb.
  destruct (loop_body argc argv l w) as [l1 w1|n w1|]; [|exact Hb|done].
  destruct Hb as (es1 & st1 & Ht1 & Hr1 & p1 & -> & Hp1).
  specialize (IH l1 w1 p1 Hp1).
  destruct (do_while fuel _ _ l1 w1) as [l2 w2|n w2|]; [done| |done].
  destruct IH as (es2 & st2 & Ht2 & Hr2).
  exists (es1 ++ es2), st2. by rewrite Ht2, Ht1, app_assoc, run_app, Hr1.
Qed.

Lemma shell_accepted fuel argc argv w :
  match shell programs fuel argc argv w with
  | Ret _ _ => False
  | Exit _ w' =>
      exists es st', trace w' = trace w ++ es
                     /\ run pipeline_step (Idle, 0) es = Some st'
  | Timeout => True
  end.
Proof.
  unfold shell, main. fold L.
  destruct (malloc_cases 1024 w) as (p & w1 & Hm & _ & _ & Ht1 & _).
  unfold bind at 1. rewrite Hm. rewrite <- Ht1.
  set (l0 := Locals (Session 0 [] p) 0 0 None None).
  assert (Hloop : forall l w2 es0,
             exit_status (ses l) = 0 -> forallb neutral es0 = true ->
             trace w2 = trace w1 ++ es0 ->
             match (l <- do_while fuel (loop_body (H := L) argc argv) (fun _ => true) l;;
                    match file l with Some f => fclose f | None => ret tt end;;
                    free_memory (cmd l);; ret 0) w2 with
             | Ret _ _ => False
             | Exit _ w' => exists es st', trace w' = trace w1 ++ es
                                           /\ run pipeline_step (Idle, 0) es = Some st'
             | Timeout => True
             end).
  { intros l w2 es0 Hst Hn Ht. unfold bind at 1.
    pose proof (do_while_accepted fuel argc argv l w2 Idle eq_refl) as Hd.
    destruct (do_while fuel _ _ l w2) as [l2 w3|n w3|]; [done| |done].
    destruct Hd as (es & st' & Ht3 & Hr). rewrite Hst in Hr.
    exists (es0 ++ es), st'. rewrite Ht3, Ht, app_assoc, run_app.
    by rewrite (run_neutral _ _ Hn). }
  unfold bind at 1.
  destruct (1 <? argc).
  - unfold bind at 1, fopen.
    destruct (fs w1 !! arg argv 1) as [content|].
    + apply (Hloop _ _ [EvFopen (arg argv 1) true]); done.
    + unfold print_file_error, exit, bind, log. simpl.
      destruct p as [a|]; simpl;
        eexists _, (Idle, 0); (split; [by rewrite <- !app_assoc|]); apply run_neutral; done.
  - unfold ret at 1. apply (Hloop l0 w1 []); [done|done|by rewrite app_nil_r].
Qed.

End SpecLoop.

(** ** The Tokenizer *)

Section TokenizerFacts.
Import Spec.
Variable delim : string.

Lemma tokens_nil_iff (s : string) :
  tokens delim s = [] <-> all_delim delim s = true.
Proof.
  induction s as [|c r IH]; simpl; [done|].
  destruct (is_delim delim c); simpl; [exact IH|].
  split; [|done].
  destruct r as [|c' r']; [done|].
  destruct (is_delim delim c'); [done|].
  by destruct (tokens delim (String c' r')).
Qed.

Lemma tokens_wf (s : string) :
  Forall (fun t => t <> EmptyString /\ no_delim delim t = true) (tokens delim s).
Proof.
  induction s as [|c r IH]; simpl; [constructor|].
  destruct (is_delim delim c) eqn:Hc; [exact IH|].
  assert (Hone : String c EmptyString <> EmptyString
                 /\ no_delim delim (String c EmptyString) = true).
  { split; [done|]. simpl. by rewrite Hc. }
  destruct r as [|c' r']; [by constructor|].
  destruct (is_delim delim c'); [by constructor|].
  destruct (tokens delim (String c' r')) as [|t ts]; [by constructor|].
  inversion IH as [|? ? [Ht1 Ht2] Hts]; subst.
  constructor; [|done]. split; [done|]. simpl. by rewrite Hc.
Qed.

Lemma tokens_single (t : string) :
  t <> EmptyString -> no_delim delim t = true -> tokens delim t = [t].
Proof.
  induction t as [|a t' IH]; [done|]. intros _. simpl.
  intros [Ha Ht'] % andb_prop. apply negb_true_iff in Ha. rewrite Ha.
  destruct t' as [|b t'']; [done|].
  simpl in Ht'. apply andb_prop in Ht' as [Hb Ht''].
  apply negb_true_iff in Hb. rewrite Hb.
  rewrite IH; [done|done|]. simpl. by rewrite Hb.
Qed.

Lemma tokens_cons (t : string) (c : ascii) (r : string) :
  t <> EmptyString -> no_delim delim t = true -> is_delim delim c = true ->
  tokens delim (t +:+ String c r) = t :: tokens delim r.
Proof.
  intros Hne Ht Hc. induction t as [|a t' IH]; [done|].
  simpl in Ht. apply andb_prop in Ht as [Ha Ht'].
  apply negb_true_iff in Ha.
  change (String a t' +:+ String c r) with (String a (t' +:+ String c r)).
  cbn [tokens]. rewrite Ha.
  destruct t' as [|b t''].
  - change (EmptyString +:+ String c r) with (String c r).
    cbn iota. rewrite Hc. cbn [tokens]. by rewrite Hc.
  - change (String b t'' +:+ String c r) with (String b (t'' +:+ String c r)).
    pose proof Ht' as Hb. simpl in Hb. apply andb_prop in Hb as [Hb _].
    apply negb_true_iff in Hb. cbn iota. rewrite Hb.
    change (String b (t'' +:+ String c r)) with (String b t'' +:+ String c r).
    by rewrite IH.
Qed.

Lemma tokens_app_delim (s ws : string) :
  all_delim delim ws = true -> tokens delim (s +:+ ws) = tokens delim s.
Proof.
  intros Hws. induction s as [|c r IH].
  - by apply tokens_nil_iff.
  - change (String c r +:+ ws) with (String c (r +:+ ws)).
    cbn [tokens]. destruct (is_delim delim c); [exact IH|].
    destruct r as [|c' r'].
    + change (EmptyString +:+ ws) with ws in *.
      destruct ws as [|d ws']; [done|].
      simpl in Hws. apply andb_prop in Hws as [Hd Hws'].
      cbn iota. rewrite Hd. cbn [tokens]. rewrite Hd.
      by apply tokens_nil_iff in Hws' as ->.
    + change (String c' r' +:+ ws) with (String c' (r' +:+ ws)) in *.
      cbn iota. by rewrite IH.
Qed.

End TokenizerFacts.

(** ** Termination *)

Lemma keeps_ret {A} (a : A) : keeps (ret a).
Proof. by intros w. Qed.

Lemma keeps_bind {A B} (c : M A) (k : A -> M B) :
  keeps c -> (forall a, keeps (k a)) -> keeps (bind c k).
Proof.
  intros Hc Hk w. unfold bind. specialize (Hc w).
  destruct (c w) as [a w1|n w1|]; [|done|done].
  specialize (Hk a w1). destruct (k a w1); congruence.
Qed.

Lemma keeps_log (e : event) : keeps (log e).
Proof. by intros w. Qed.

Lemma keeps_exit {A} (n : Z) : keeps (@exit A n).
Proof. by intros w. Qed.

Lemma keeps_alloc_ok : keeps alloc_ok.
Proof. intros w. unfold alloc_ok. by destruct (oracle w). Qed.

Lemma keeps_free (p : option ptr) : keeps (free p).
Proof. destruct p; [apply keeps_log | apply keeps_ret]. Qed.

Ltac keeps_step :=
  first
    [ apply keeps_ret | apply keeps_log | apply keeps_exit | apply keeps_alloc_ok
    | apply keeps_free
    | apply keeps_bind; [|intros ?] ].

Section SpecTermination.
Import Spec.
Variable programs : gmap string (list string -> Z).
Let L := lib programs.

Lemma keeps_env_set name value : keeps (env_set name value).
Proof.
  unfold env_set. keeps_step; [keeps_step|]. destruct a; [by intros w | keeps_step].
Qed.

Lemma keeps_env_unset name : keeps (env_unset name).
Proof.
  intros w. unfold env_unset. destruct (environ w !! name); [|done].
  unfold bind, alloc_ok. by destruct (oracle w) as [|[] o].
Qed.

Lemma keeps_env_failure c argv idx s : keeps (env_failure c argv idx s).
Proof.
  unfold env_failure, print_env_error, print_shell_error. repeat keeps_step.
Qed.

Lemma keeps_process_command c argv idx s :
  keeps (process_command programs c argv idx s).
Proof.
  unfold process_command.
  destruct c as [|name args]; [keeps_step|].
  destruct (String.eqb name "exit").
  { unfold builtin_exit, free_aliases, print_shell_error.
    destruct args as [|operand args']; [repeat keeps_step|].
    destruct (parse_status operand); repeat keeps_step. }
  destruct (String.eqb name "setenv").
  { unfold builtin_setenv.
    destruct args as [|a1 [|a2 [|a3 rest]]]; try apply keeps_env_failure.
    keeps_step; [apply keeps_env_set|].
    destruct a; [keeps_step | apply keeps_env_failure]. }
  destruct (String.eqb name "unsetenv").
  { unfold builtin_unsetenv.
    destruct args as [|a1 [|a2 rest]]; try apply keeps_env_failure.
    keeps_step; [apply keeps_env_unset|].
    destruct a; [keeps_step | apply keeps_env_failure]. }
  unfold print_shell_error.
  destruct (programs !! name); repeat keeps_step.
Qed.

Lemma keeps_tokenize line delim : keeps (tokenize_command line delim).
Proof.
  unfold tokenize_command. keeps_step; [keeps_step|].
  destruct a; [|keeps_step]. destruct (tokens delim line); keeps_step.
Qed.

Lemma keeps_tokenize_then_dispatch text argv idx s :
  keeps (log (EvTokenize text);;
         c <- tokenize_command text delim_ws;;
         match c with
         | None => ret s
         | Some c => dispatch (process_command programs) c argv idx s
         end).
Proof.
  keeps_step; [keeps_step|]. keeps_step; [apply keeps_tokenize|].
  destruct a0; [|keeps_step]. unfold dispatch.
  keeps_step; [keeps_step|]. keeps_step; [apply keeps_process_command|].
  repeat keeps_step.
Qed.

Lemma keeps_run_chain argv idx segs : forall s,
  keeps (run_chain tokenize_command (process_command programs) argv idx segs s).
Proof.
  induction segs as [|[t text] rest IH]; intros s; simpl; [keeps_step|].
  assert (Hsyn : keeps (syntax_error argv idx s)).
  { unfold syntax_error, print_shell_error. repeat keeps_step. }
  destruct (all_delim delim_ws text).
  - destruct t, rest; try exact Hsyn; apply IH.
  - destruct (gate t (exit_status s)); [|apply IH].
    keeps_step; [apply keeps_tokenize_then_dispatch | apply IH].
Qed.

Lemma keeps_handle_command_exec c line argv idx s :
  keeps (handle_command_exec (H := L) c line argv idx s).
Proof.
  unfold handle_command_exec. keeps_step; [keeps_step|].
  simpl. destruct (check_for_operator line).
  - keeps_step; [keeps_step|]. apply keeps_run_chain.
  - apply keeps_tokenize_then_dispatch.
Qed.

Lemma loop_body_progress argc argv l w :
  match loop_body (H := L) argc argv l w with
  | Ret l' w' =>
      file l' = file l
      /\ (pending (input_stream (file l)) w' < pending (input_stream (file l)) w)%nat
  | Exit _ _ => True
  | Timeout => False
  end.
Proof.
  unfold loop_body, bind at 1.
  rewrite read_and_handle_comments_eq. simpl.
  set (f := input_stream (file l)).
  unfold read_command.
  change (streams (emit (EvRead f) w)) with (streams w).
  destruct (streams w !! f) as [[|line rest]|] eqn:Hf.
  1,3: simpl; unfold bind at 1;
       destruct (handle_exit_exits 0 (exit_status (ses l)) (file l) (new_env (ses l))
                   (emit (EvCommentFilter None) (emit (EvRead f) w))) as (w2 & -> & _);
       done.
  cbn [fst snd].
  match goal with |- context [if ?b then _ else _] => destruct b end.
  - destruct (handle_comments (Some line)) as [line'|].
    2: { unfold bind at 1.
         match goal with |- context [handle_exit ?a ?b ?c ?d ?e] =>
           destruct (handle_exit_exits a b c d e) as (w2 & -> & _) end. done. }
    cbn [ses cmd_idx is_comment file cmd]. unfold bind.
    match goal with |- context [handle_command_exec ?a ?b ?c ?d ?e ?w1] =>
      pose proof (keeps_handle_command_exec a b c d e w1) as Hk;
      destruct (handle_command_exec a b c d e w1) as [s' w'| |] end; [|done|done].
    simpl. split; [done|]. unfold pending. rewrite Hk, Hf. simpl.
    rewrite lookup_insert_eq. simpl. lia.
  - cbn [ses cmd_idx is_comment file cmd]. unfold bind.
    match goal with |- context [handle_command_exec ?a ?b ?c ?d ?e ?w1] =>
      pose proof (keeps_handle_command_exec a b c d e w1) as Hk;
      destruct (handle_command_exec a b c d e w1) as [s' w'| |] end; [|done|done].
    simpl. split; [done|]. unfold pending. rewrite Hk, Hf. simpl.
    rewrite lookup_insert_eq. simpl. lia.
Qed.

Lemma do_while_terminates argc argv fuel : forall l w,
  (pending (input_stream (file l)) w < fuel)%nat ->
  exists n w', do_while fuel (loop_body (H := L) argc argv) (fun _ => true) l w
               = Exit n w'.
Proof.
  induction fuel as [|fuel IH]; intros l w Hlt; [lia|].
  simpl. unfold bind.
  pose proof (loop_body_progress argc argv l w) as Hp.
  destruct (loop_body argc argv l w) as [l1 w1|n w1|]; [|by eauto|done].
  destruct Hp as [Hf Hlt1]. apply IH. rewrite Hf. lia.
Qed.

Lemma shell_terminates fuel argc argv w :
  (lines_available argc argv w < fuel)%nat ->
  exists n w', shell programs fuel argc argv w = Exit n w'.
Proof.
  unfold lines_available, shell, main. fold L. intros Hlt.
  destruct (malloc_cases 1024 w) as (p & w1 & Hm & Hfs & Hst & _).
  unfold bind at 1. rewrite Hm. unfold bind at 1.
  assert (Hloop : forall l w2,
             (pending (input_stream (file l)) w2 < fuel)%nat ->
             exists n w',
               (l <- do_while fuel (loop_body (H := L) argc argv) (fun _ => true) l;;
                match file l with Some f => fclose f | None => ret tt end;;
                free_memory (cmd l);; ret 0) w2 = Exit n w').
  { intros l w2 Hl. unfold bind at 1.
    destruct (do_while_terminates argc argv fuel l w2 Hl) as (n & w' & ->). eauto. }
  destruct (1 <? argc).
  - unfold bind at 1, fopen. rewrite Hfs.
    destruct (fs w !! arg argv 1) as [content|].
    + apply Hloop. unfold pending. simpl. by rewrite lookup_insert_eq.
    + unfold print_file_error, bind, log. simpl. destruct p; simpl; eauto.
  - unfold ret at 1. apply Hloop. unfold pending in *. simpl. by rewrite Hst.
Qed.

End SpecTermination.

(** ** The Comment Filter *)

Section CommentFacts.
Import Spec.

Lemma before_comment_blank_prefix (ws rest : string) :
  all_blank ws = true ->
  before_comment true (ws +:+ String ch_hash rest) = Some ws.
Proof.
  induction ws as [|c ws IH]; intros Hb; [done|].
  simpl in Hb. apply andb_prop in Hb as [Hc Hws].
  change (String c ws +:+ String ch_hash rest)
    with (String c (ws +:+ String ch_hash rest)).
  cbn [before_comment]. rewrite Hc.
  assert (Ascii.eqb c ch_hash = false) as ->.
  { unfold is_blank in Hc. apply orb_prop in Hc as [Hc|Hc];
      apply Ascii.eqb_eq in Hc; by subst. }
  simpl. by rewrite IH.
Qed.

Lemma comment_only_filtered (s : string) :
  comment_only s ->
  check_for_comments (Some s) = 1 /\ handle_comments (Some s) = None.
Proof.
  intros (ws & rest & -> & Hb). unfold check_for_comments, handle_comments.
  rewrite before_comment_blank_prefix by done. by rewrite Hb.
Qed.

End CommentFacts.

Section SpecSession.
Import Spec.
Variable programs : gmap string (list string -> Z).
Let L := lib programs.

(** With the Comment Filter of the specification, every line that is
    blanks and then a comment ends the session. *)
Lemma comment_only_line_ends_session (fuel : nat) (argc : Z) (argv : list string)
    (l : locals) (w : world) (s : string) (rest : list string) :
  streams w !! input_stream (file l) = Some (s :: rest) ->
  comment_only s ->
  exists w2,
    loop_body (H := L) argc argv l w = Exit (exit_status (ses l)) w2
    /\ do_while (S fuel) (loop_body (H := L) argc argv) (fun _ => true) l w
       = Exit (exit_status (ses l)) w2
    /\ trace w2 = trace w ++ [EvRead (input_stream (file l)); EvCommentFilter (Some s)]
                   ++ fclose_events (file l) ++ free_events (new_env (ses l))
                   ++ [EvExit (exit_status (ses l))]
    /\ forallb (fun e => negb (is_dispatch e))
         ([EvRead (input_stream (file l)); EvCommentFilter (Some s)]
            ++ fclose_events (file l) ++ free_events (new_env (ses l))
            ++ [EvExit (exit_status (ses l))]) = true.
Proof.
  intros Hs Hc. destruct (comment_only_filtered s Hc) as [Hflag Hnull].
  set (f := input_stream (file l)) in *.
  assert (Hr : read_and_handle_comments (H := L) (file l) argc w
               = Ret (None, 1)
                   (emit (EvCommentFilter (Some s))
                      (set_streams (<[f := rest]> (streams w)) (emit (EvRead f) w)))).
  { rewrite read_and_handle_comments_eq. fold f. simpl. unfold read_command.
    change (streams (emit (EvRead f) w)) with (streams w). rewrite Hs.
    cbn -[check_for_comments handle_comments Z.eqb]. rewrite Hflag.
    cbn -[handle_comments]. by rewrite Hnull. }
  destruct (loop_body_null_line (H := L) fuel argc argv l 1 w _ Hr)
    as (w2 & He & Hb & Hd).
  exists w2. split; [exact Hb|]. split; [exact Hd|].
  match type of He with handle_exit ?a ?b ?c ?d ?e = _ =>
    destruct (handle_exit_exits a b c d e) as (w2' & He' & Ht & _) end.
  rewrite He in He'. injection He' as <-.
  split.
  - rewrite Ht. unfold newline_events. cbn [Z.eqb andb emit trace set_streams].
    rewrite <- !app_assoc. reflexivity.
  - by destruct (file l), (new_env (ses l)).
Qed.

(** C5: a failed environment operation.  When the table operation behind
    [setenv] or [unsetenv] reports failure, the environment is what it was
    before the attempt, the failure is reported once through
    [print_env_error], whose result 2 becomes the session's exit status,
    and the call returns: the loop goes on with its next pass. *)
Theorem env_failure_status_2 (fuel : nat) (argc : Z) (argv : list string) (l : locals)
    (line : string) (ic : Z) (c : list string) (op : M bool) (w w1 w2 w3 : world) :
  read_and_handle_comments (H := L) (file l) argc w = Ret (Some line, ic) w1 ->
  check_for_operator line = None ->
  tokenize_command line delim_ws
      (emit (EvTokenize line) (emit (EvOperatorCheck line) w1)) = Ret (Some c) w2 ->
  env_operation c = Some op ->
  op (emit (EvDispatch c (exit_status (ses l))) w2) = Ret false w3 ->
  let l' := Locals (set_exit_status 2 (ses l)) (cmd_idx l + 1) ic (file l) (cmd l) in
  let w4 := emit (EvStatus 2)
              (emit (EvShellError (arg argv 0) (cmd_idx l + 1) c env_err_msg) w3) in
  environ w3 = environ w2
  /\ process_command programs c argv (cmd_idx l + 1) (ses l)
       (emit (EvDispatch c (exit_status (ses l))) w2)
     = Ret (set_exit_status 2 (ses l))
           (emit (EvShellError (arg argv 0) (cmd_idx l + 1) c env_err_msg) w3)
  /\ loop_body (H := L) argc argv l w = Ret l' w4
  /\ exit_status (ses l') = 2
  /\ environ w4 = environ w2
  /\ do_while (S fuel) (loop_body (H := L) argc argv) (fun _ => true) l w
     = do_while fuel (loop_body (H := L) argc argv) (fun _ => true) l' w4.
Proof.
  intros Hr Hop Htk Hc Hfail l' w4.
  set (w2' := emit (EvDispatch c (exit_status (ses l))) w2) in *.
  assert (Henv : environ w3 = environ w2).
  { change (environ w2) with (environ w2').
    unfold env_operation in Hc.
    destruct c as [|name [|var [|value [|? ?]]]]; try done.
    - destruct (String.eqb name "unsetenv"); [|done]. injection Hc as <-.
      unfold env_unset in Hfail. destruct (environ w2' !! var); [|done].
      unfold bind, alloc_ok, ret in Hfail.
      destruct (oracle w2') as [|[] o]; simpl in Hfail;
        try discriminate; by injection Hfail as <-.
    - destruct (String.eqb name "setenv"); [|done]. injection Hc as <-.
      unfold env_set, bind, alloc_ok, ret in Hfail.
      destruct (oracle w2') as [|[] o]; simpl in Hfail;
        try discriminate; by injection Hfail as <-. }
  assert (Hpc : process_command programs c argv (cmd_idx l + 1) (ses l) w2'
                = Ret (set_exit_status 2 (ses l))
                    (emit (EvShellError (arg argv 0) (cmd_idx l + 1) c env_err_msg) w3)).
  { unfold env_operation in Hc.
    destruct c as [|name [|var [|value [|? ?]]]]; try done.
    - destruct (String.eqb name "unsetenv") eqn:Hn; [|done]. injection Hc as <-.
      apply String.eqb_eq in Hn as ->.
      unfold process_command, builtin_unsetenv. simpl.
      unfold bind at 1. by rewrite Hfail.
    - destruct (String.eqb name "setenv") eqn:Hn; [|done]. injection Hc as <-.
      apply String.eqb_eq in Hn as ->.
      unfold process_command, builtin_setenv. simpl.
      unfold bind at 1. by rewrite Hfail. }
  assert (Hb : loop_body (H := L) argc argv l w = Ret l' w4).
  { unfold loop_body, bind at 1. rewrite Hr. simpl.
    unfold handle_command_exec, bind, log. simpl. rewrite Hop. simpl.
    rewrite Htk. unfold dispatch, bind, log. simpl. fold w2'. by rewrite Hpc. }
  split; [exact Henv|]. split; [exact Hpc|]. split; [exact Hb|].
  split; [done|]. split; [exact Henv|].
  simpl. unfold bind. by rewrite Hb.
Qed.

End SpecSession.

(** ** The Operator Splitter *)

Section SplitterFacts.
Import Spec.

(** A plain text in front of a line ends up in front of its first segment. *)
Lemma segments_plain_prefix (text : string) : forall tag r g gs,
  plain text = true ->
  segments tag r = Seg g.(seg_op) g.(seg_text) :: gs ->
  segments tag (text +:+ r) = Seg g.(seg_op) (text +:+ g.(seg_text)) :: gs.
Proof.
  induction text as [|c text IH]; intros tag r g gs Hp Hr; [exact Hr|].
  simpl in Hp.
  apply andb_prop in Hp as [Hp Hrest]. apply andb_prop in Hp as [Hp Hbar].
  apply andb_prop in Hp as [Hsemi Hamp].
  apply negb_true_iff in Hsemi, Hamp, Hbar.
  change (String c text +:+ r) with (String c (text +:+ r)).
  cbn [segments]. rewrite Hsemi, Hamp, Hbar. cbn [andb].
  rewrite (IH tag r g gs Hrest Hr).
  by destruct (text +:+ r).
Qed.

Lemma segments_operator (tag t : op_tag) (r : string) :
  t <> NONE -> segments tag (op_text t +:+ r) = Seg tag EmptyString :: segments t r.
Proof. by destruct t. Qed.

Lemma string_app_nil_r (s : string) : s +:+ EmptyString = s.
Proof.
  induction s as [|c s IH]; [done|].
  change (String c s +:+ EmptyString) with (String c (s +:+ EmptyString)).
  by rewrite IH.
Qed.

(** Splitting a chain that was written out gives the chain back. *)
Lemma segments_render (segs : list Segment) : forall tag text,
  plain text = true ->
  forallb chained segs = true ->
  segments tag (text +:+ render segs) = Seg tag text :: segs.
Proof.
  induction segs as [|[t x] segs IH]; intros tag text Hp Hs.
  - simpl. rewrite string_app_nil_r.
    rewrite <- (string_app_nil_r text) at 1.
    rewrite (segments_plain_prefix text tag EmptyString (Seg tag EmptyString) []);
      [|done|done].
    simpl. by rewrite string_app_nil_r.
  - simpl in Hs. apply andb_prop in Hs as [Hc Hs].
    unfold chained in Hc. simpl in Hc.
    assert (Ht : t <> NONE) by (by destruct t).
    assert (Hx : plain x = true).
    { destruct t; [done|..]; by apply andb_prop in Hc as [? _]. }
    cbn [render].
    rewrite (segments_plain_prefix text tag _ (Seg tag EmptyString)
               (Seg t x :: segs)); [|done|].
    + simpl. by rewrite string_app_nil_r.
    + simpl. rewrite segments_operator by done. by rewrite IH.
Qed.

Section Chain.
Variable tk : string -> string -> M (option (list string)).
Variable pc : list string -> list string -> Z -> session -> M session.
Variables (argv : list string) (idx : Z).

(** A chain without empty segments runs its front part, then the rest. *)
Lemma run_chain_app (pre post : list Segment) : forall s w,
  forallb (fun g => negb (all_delim delim_ws (seg_text g))) pre = true ->
  run_chain tk pc argv idx (pre ++ post) s w =
  (s' <- run_chain tk pc argv idx pre s;; run_chain tk pc argv idx post s') w.
Proof.
  induction pre as [|[t x] pre IH]; intros s w Hpre; [done|].
  simpl in Hpre. apply andb_prop in Hpre as [Hx Hpre].
  apply negb_true_iff in Hx.
  cbn [app run_chain]. rewrite Hx.
  destruct (gate t (exit_status s)); [|by apply IH].
  unfold bind.
  destruct (run_segment tk pc argv idx x s w) as [s1 w1|n w1|]; [|done|done].
  by rewrite IH.
Qed.

End Chain.

Lemma gate_laws (status : Z) :
  gate SEQ status = true
  /\ (gate AND status = true <-> status = 0)
  /\ (gate OR status = true <-> status <> 0).
Proof.
  unfold gate. split; [done|]. split.
  - apply Z.eqb_eq.
  - rewrite negb_true_iff. apply Z.eqb_neq.
Qed.

End SplitterFacts.

(** ** The order of the stages, and what reaches the Dispatcher *)

Section SpecStages.
Import Spec.
Variable programs : gmap string (list string -> Z).
Let L := lib programs.

Lemma shell_run (fuel : nat) (argc : Z) (argv : list string) (w0 : world) :
  match shell programs fuel argc argv w0 with
  | Ret _ _ => False
  | Exit _ w' =>
      exists es st',
        trace w' = trace w0 ++ es
        /\ run pipeline_step (Idle, 0) es = Some st'
  | Timeout => (fuel <= lines_available argc argv w0)%nat
  end.
Proof.
  pose proof (shell_accepted programs fuel argc argv w0) as Ha.
  destruct (shell programs fuel argc argv w0) as [v w'|n w'|] eqn:Hs;
    [done|exact Ha|].
  destruct (Nat.le_gt_cases fuel (lines_available argc argv w0)) as [Hle|Hgt];
    [exact Hle|].
  destruct (shell_terminates programs fuel argc argv w0 Hgt) as (n & w' & He).
  congruence.
Qed.

Lemma is_delim_ws (c : ascii) :
  is_delim delim_ws c = true <-> c = ch_space \/ c = ch_tab \/ c = ch_nl.
Proof.
  unfold delim_ws. cbn [is_delim]. rewrite orb_false_r, !orb_true_iff.
  by rewrite !Ascii.eqb_eq.
Qed.


End SpecStages.

(** ** The theorems at work on sample sessions *)

Lemma open_failure_exits_2_witness :
  1 < 2
  /\ ["hsh"; "missing.sh"] !! 1%nat = Some "missing.sh"
  /\ fs (Demo.world_of [Demo.line "ls"] [] false) !! "missing.sh" = None
  /\ exists p w',
       main (H := Demo.lib) 5 2 ["hsh"; "missing.sh"]
            (Demo.world_of [Demo.line "ls"] [] false) = Exit 2 w'
       /\ trace w' = [EvFopen "missing.sh" false; EvFileError "hsh" 0 "missing.sh"]
                     ++ free_events p ++ [EvExit 2]
       /\ streams w' = {[stdin := [Demo.line "ls"]]}.
Proof.
  assert (H1 : 1 < 2) by lia.
  assert (H2 : ["hsh"; "missing.sh"] !! 1%nat = Some "missing.sh") by reflexivity.
  assert (H3 : fs (Demo.world_of [Demo.line "ls"] [] false) !! "missing.sh" = None)
    by reflexivity.
  split; [exact H1|]. split; [exact H2|]. split; [exact H3|].
  exact (open_failure_exits_2 (H := Demo.lib) 5 2 _ _ _ H1 H2 H3).
Defined.

Lemma null_line_exits_witness :
  read_and_handle_comments (H := Demo.lib) (file Demo.at_stdin) 1
      (Demo.world_of [] [] true)
    = Ret (None, 0)
        (emit (EvCommentFilter None) (emit (EvRead stdin) (Demo.world_of [] [] true)))
  /\ exists w2,
       loop_body (H := Demo.lib) 1 ["hsh"] Demo.at_stdin (Demo.world_of [] [] true)
         = Exit 0 w2.
Proof.
  assert (H1 : read_and_handle_comments (H := Demo.lib) (file Demo.at_stdin) 1
                 (Demo.world_of [] [] true)
               = Ret (None, 0)
                   (emit (EvCommentFilter None)
                      (emit (EvRead stdin) (Demo.world_of [] [] true))))
    by reflexivity.
  split; [exact H1|].
  destruct (null_line_exits (H := Demo.lib) 3 1 ["hsh"] Demo.at_stdin 0 _ _ H1)
    as [(w2 & _ & Hb & _) _].
  exists w2. exact Hb.
Defined.

Lemma comment_line_ends_session_witness :
  read_command (ShellLib := Demo.lib) (input_stream (file Demo.at_stdin)) 1
      (emit (EvRead (input_stream (file Demo.at_stdin))) Demo.noted)
    = Ret (Some Demo.note) (Demo.after_read stdin [Demo.line "echo hi"] Demo.noted)
  /\ check_for_comments (ShellLib := Demo.lib) (Some Demo.note) = 1
  /\ handle_comments (ShellLib := Demo.lib) (Some Demo.note) = None
  /\ exists w2,
       do_while 3 (loop_body (H := Demo.lib) 1 ["hsh"]) (fun _ => true)
                Demo.at_stdin Demo.noted = Exit 0 w2
       /\ trace w2 = [EvRead stdin; EvCommentFilter (Some Demo.note); EvExit 0]
       /\ streams w2 = {[stdin := [Demo.line "echo hi"]]}.
Proof.
  assert (H1 : read_command (ShellLib := Demo.lib) (input_stream (file Demo.at_stdin)) 1
                 (emit (EvRead (input_stream (file Demo.at_stdin))) Demo.noted)
               = Ret (Some Demo.note)
                   (Demo.after_read stdin [Demo.line "echo hi"] Demo.noted))
    by (vm_compute; reflexivity).
  assert (H2 : check_for_comments (ShellLib := Demo.lib) (Some Demo.note) = 1)
    by reflexivity.
  assert (H3 : handle_comments (ShellLib := Demo.lib) (Some Demo.note) = None)
    by reflexivity.
  split; [exact H1|]. split; [exact H2|]. split; [exact H3|].
  destruct (comment_line_ends_session (H := Demo.lib) 2 1 ["hsh"] Demo.at_stdin
              Demo.note Demo.noted _ H1 H2 H3) as (w2 & _ & Hd & Ht & Hs).
  exists w2. split; [exact Hd|]. split; [exact Ht|].
  rewrite Hs. vm_compute. reflexivity.
Defined.

Lemma env_failure_status_2_witness :
  read_and_handle_comments (H := Demo.lib) (file Demo.at_stdin) 1 Demo.env0 = Ret (Some Demo.setenv_line, 0) Demo.env1
  /\ Spec.check_for_operator Demo.setenv_line = None
  /\ Spec.tokenize_command Demo.setenv_line delim_ws
       (emit (EvTokenize Demo.setenv_line) (emit (EvOperatorCheck Demo.setenv_line) Demo.env1)) = Ret (Some Demo.setenv_cmd) Demo.env2
  /\ Spec.env_operation Demo.setenv_cmd = Some (Spec.env_set "EDITOR" "vi")
  /\ Spec.env_set "EDITOR" "vi" (emit (EvDispatch Demo.setenv_cmd 0) Demo.env2) = Ret false Demo.env3
  /\ exists w4,
       loop_body (H := Demo.lib) 1 ["hsh"] Demo.at_stdin Demo.env0
         = Ret (Locals (Session 2 [] None) 1 0 None None) w4
       /\ environ w4 = environ Demo.env0
       /\ streams w4 !! stdin = Some [Demo.line "echo hi"].
Proof.
  assert (H1 : read_and_handle_comments (H := Demo.lib) (file Demo.at_stdin) 1 Demo.env0
               = Ret (Some Demo.setenv_line, 0) Demo.env1) by (vm_compute; reflexivity).
  assert (H2 : Spec.check_for_operator Demo.setenv_line = None) by reflexivity.
  assert (H3 : Spec.tokenize_command Demo.setenv_line delim_ws
                 (emit (EvTokenize Demo.setenv_line) (emit (EvOperatorCheck Demo.setenv_line) Demo.env1))
               = Ret (Some Demo.setenv_cmd) Demo.env2) by (vm_compute; reflexivity).
  assert (H4 : Spec.env_operation Demo.setenv_cmd = Some (Spec.env_set "EDITOR" "vi")) by reflexivity.
  assert (H5 : Spec.env_set "EDITOR" "vi" (emit (EvDispatch Demo.setenv_cmd 0) Demo.env2) = Ret false Demo.env3)
    by reflexivity.
  split; [exact H1|]. split; [exact H2|]. split; [exact H3|].
  split; [exact H4|]. split; [exact H5|].
  destruct (env_failure_status_2 Demo.programs 1 1 ["hsh"] Demo.at_stdin Demo.setenv_line 0 Demo.setenv_cmd _ Demo.env0 Demo.env1 Demo.env2 Demo.env3
              H1 H2 H3 H4 H5) as (_ & _ & Hb & _ & He & _).
  eexists. split; [exact Hb|]. split; [exact He|]. vm_compute. reflexivity.
Defined.

(** ** Sessions run to their end *)

Example or_runs_after_failure :
  let r := Spec.shell Demo.programs 5 1 ["hsh"]
             (Demo.world_of [Demo.line "false || echo b"] [] false) in
  dispatched r = [["false"]; ["echo"; "b"]] /\ exit_code r = Some 0.
Proof. vm_compute. done. Qed.

Example or_skips_after_success :
  let r := Spec.shell Demo.programs 5 1 ["hsh"]
             (Demo.world_of [Demo.line "true || echo b"] [] false) in
  dispatched r = [["true"]] /\ exit_code r = Some 0.
Proof. vm_compute. done. Qed.

Example and_skips_after_failure :
  let r := Spec.shell Demo.programs 5 1 ["hsh"]
             (Demo.world_of [Demo.line "false && echo b"] [] false) in
  dispatched r = [["false"]] /\ exit_code r = Some 1.
Proof. vm_compute. done. Qed.

Example and_runs_after_success :
  let r := Spec.shell Demo.programs 5 1 ["hsh"]
             (Demo.world_of [Demo.line "echo a && echo b"] [] false) in
  dispatched r = [["echo"; "a"]; ["echo"; "b"]] /\ exit_code r = Some 0.
Proof. vm_compute. done. Qed.

Example double_separator_is_one_boundary :
  let r := Spec.shell Demo.programs 5 1 ["hsh"]
             (Demo.world_of [Demo.line "false ;; echo b"] [] false) in
  dispatched r = [["false"]; ["echo"; "b"]] /\ exit_code r = Some 0.
Proof. vm_compute. done. Qed.

Example unknown_command_is_127 :
  let r := Spec.shell Demo.programs 5 1 ["hsh"]
             (Demo.world_of [Demo.line "nosuch"; Demo.line "exit"] [] false) in
  dispatched r = [["nosuch"]; ["exit"]] /\ exit_code r = Some 127.
Proof. vm_compute. done. Qed.

Example exit_operand_is_the_status :
  let r := Spec.shell Demo.programs 5 1 ["hsh"]
             (Demo.world_of [Demo.line "exit 42"; Demo.line "echo late"] [] false) in
  dispatched r = [["exit"; "42"]] /\ exit_code r = Some 42.
Proof. vm_compute. done. Qed.

Example trailing_comment_is_dropped :
  let r := Spec.shell Demo.programs 5 1 ["hsh"]
             (Demo.world_of [Demo.line "echo a # b"; Demo.line "false"] [] false) in
  dispatched r = [["echo"; "a"]; ["false"]] /\ exit_code r = Some 1.
Proof. vm_compute. done. Qed.

Example comment_line_stops_the_session :
  let r := Spec.shell Demo.programs 5 1 ["hsh"]
             (Demo.world_of [Demo.line "false"; Demo.note; Demo.line "echo late"] [] false) in
  dispatched r = [["false"]] /\ exit_code r = Some 1.
Proof. vm_compute. done. Qed.

Example script_is_read_and_closed :
  let w := World {["build.sh" := [Demo.line "true"; Demo.line "false"]]}
                 {[stdin := []]} false ∅ [] 0%nat [] in
  let r := Spec.shell Demo.programs 5 2 ["hsh"; "build.sh"] w in
  dispatched r = [["true"]; ["false"]] /\ exit_code r = Some 1
  /\ (streams <$> final r) = Some {[stdin := []]}.
Proof. vm_compute. done. Qed.

Example terminal_gets_a_newline_at_the_end :
  let r := Spec.shell Demo.programs 5 1 ["hsh"]
             (Demo.world_of [Demo.line "false"] [] true) in
  (trace <$> final r)
  = Some [EvRead stdin; EvCommentFilter (Some (Demo.line "false"));
          EvOperatorCheck (Demo.line "false"); EvTokenize (Demo.line "false");
          EvDispatch ["false"] 0; EvStatus 1;
          EvRead stdin; EvCommentFilter None;
          EvWrite STDOUT_FILENO str_nl; EvFree 0%nat; EvExit 1]
  /\ exit_code r = Some 1.
Proof. vm_compute. done. Qed.

Example loop_bound_too_small :
  Spec.shell Demo.programs 1 1 ["hsh"]
    (Demo.world_of [Demo.line "true"; Demo.line "false"] [] false) = Timeout.
Proof. vm_compute. done. Qed.

(** The automaton turns down a trace whose stages are out of order, a
    Dispatcher entered with a stale status, and an empty token vector. *)
Example rejects_dispatch_before_tokenize :
  run pipeline_step (Idle, 0)
    [EvRead stdin; EvCommentFilter None; EvOperatorCheck "ls"; EvDispatch ["ls"] 0] = None.
Proof. reflexivity. Qed.

Example rejects_operator_check_before_filter :
  run pipeline_step (Idle, 0) [EvRead stdin; EvOperatorCheck "ls"] = None.
Proof. reflexivity. Qed.

Example rejects_stale_status :
  run pipeline_step (Idle, 0)
    [EvRead stdin; EvCommentFilter (Some "a;b"); EvOperatorCheck "a;b"; EvSplit "a;b";
     EvTokenize "a"; EvDispatch ["a"] 0; EvStatus 1;
     EvTokenize "b"; EvDispatch ["b"] 0] = None.
Proof. reflexivity. Qed.

Example rejects_empty_vector :
  run pipeline_step (Idle, 0)
    [EvRead stdin; EvCommentFilter (Some " "); EvOperatorCheck " ";
     EvTokenize " "; EvDispatch [] 0] = None.
Proof. reflexivity. Qed.

(** * More of [main.c] *)

Section SessionFacts.
Context `{ShellLib}.

Lemma do_while_passes (n fuel : nat) (body : locals -> M locals) : forall l w,
  do_while (n + fuel) body (fun _ => true) l w =
  match passes n body l w with
  | Ret l' w' => do_while fuel body (fun _ => true) l' w'
  | Exit s w' => Exit s w'
  | Timeout => Timeout
  end.
Proof.
  induction n as [|n IH]; intros l w; [done|].
  cbn [Nat.add do_while passes]. unfold bind.
  destruct (body l w) as [l1 w1|s w1|]; [apply IH|done|done].
Qed.

Lemma loop_body_inv (argc : Z) (argv : list string) (l l' : locals) (w w' : world) :
  loop_body argc argv l w = Ret l' w' ->
  exists line w1,
    read_and_handle_comments (file l) argc w = Ret (Some line, is_comment l') w1
    /\ handle_command_exec (cmd l) line argv (cmd_idx l + 1) (ses l) w1
       = Ret (ses l') w'
    /\ cmd_idx l' = cmd_idx l + 1
    /\ file l' = file l
    /\ cmd l' = cmd l.
Proof.
  unfold loop_body, bind at 1.
  destruct (read_and_handle_comments (file l) argc w) as [[cmd_line ic] w1|s w1|];
    [|done|done].
  cbn [fst snd]. destruct cmd_line as [line|].
  - cbn [ses cmd_idx is_comment file cmd]. unfold bind.
    destruct (handle_command_exec (cmd l) line argv (cmd_idx l + 1) (ses l) w1)
      as [s w2|s w2|] eqn:Hh; [|done|done].
    intros [= <- <-]. exists line, w1. by rewrite Hh.
  - unfold bind at 1. cbn [ses cmd_idx is_comment file cmd].
    destruct (handle_exit_exits ic (exit_status (ses l)) (file l) (new_env (ses l)) w1)
      as (w2 & -> & _). done.
Qed.

Lemma passes_inv (argc : Z) (argv : list string) (n : nat) : forall l l' w w',
  passes n (loop_body argc argv) l w = Ret l' w' ->
  cmd_idx l' = cmd_idx l + Z.of_nat n /\ file l' = file l /\ cmd l' = cmd l.
Proof.
  induction n as [|n IH]; intros l l' w w'.
  - intros [= <- <-]. split; [lia|done].
  - cbn [passes]. unfold bind.
    destruct (loop_body argc argv l w) as [l1 w1|s w1|] eqn:Hb; [|done|done].
    intros Hp. apply IH in Hp as (Hi & Hf & Hc).
    apply loop_body_inv in Hb as (_ & _ & _ & _ & Hi1 & Hf1 & Hc1).
    split; [lia|]. split; congruence.
Qed.

Lemma loop_body_end_of_input (argc : Z) (argv : list string) (l : locals) (w w1 : world) :
  read_command (input_stream (file l)) argc (emit (EvRead (input_stream (file l))) w)
    = Ret None w1 ->
  check_for_comments None = 0 ->
  exists w2,
    loop_body argc argv l w = Exit (exit_status (ses l)) w2
    /\ trace w2 = trace w1 ++ [EvCommentFilter None]
                   ++ fclose_events (file l)
                   ++ (if tty w1 then [EvWrite STDOUT_FILENO str_nl] else [])
                   ++ free_events (new_env (ses l))
                   ++ [EvExit (exit_status (ses l))].
Proof.
  intros Hr Hc.
  pose proof (read_and_handle_comments_eq (file l) argc w) as Hrh.
  rewrite Hr in Hrh. cbn zeta in Hrh. rewrite Hc in Hrh.
  change (0 =? 1) with false in Hrh. cbn iota in Hrh.
  destruct (loop_body_null_line 0 argc argv l 0 w _ Hrh) as (w2 & He & Hb & _).
  exists w2. split; [exact Hb|].
  destruct (handle_exit_exits 0 (exit_status (ses l)) (file l) (new_env (ses l))
              (emit (EvCommentFilter None) w1)) as (w2' & He' & Ht & _).
  rewrite He in He'. injection He' as <-.
  rewrite Ht. unfold newline_events. cbn [Z.eqb andb emit trace].
  rewrite <- !app_assoc. reflexivity.
Qed.

(** X1: [handle_exit] in full.  Whatever it is given, [handle_exit] ends
    the process with the status it was handed; on the way it closes the
    file if there is one, writes one newline exactly when the comment flag
    is 0 and standard input is a terminal, and frees [new_env] if it is
    not [NULL], in this order.  It removes no stream but that of the file
    and leaves the environment and the files alone. *)
Theorem handle_exit_effect (is_comment status : Z) (file : option FILE)
    (new_env : option ptr) (w : world) :
  exists w',
    handle_exit is_comment status file new_env w = Exit status w'
    /\ trace w' = trace w ++ fclose_events file
                   ++ newline_events is_comment (tty w)
                   ++ free_events new_env ++ [EvExit status]
    /\ (newline_events is_comment (tty w) = [EvWrite STDOUT_FILENO str_nl]
        <-> is_comment = 0 /\ tty w = true)
    /\ (newline_events is_comment (tty w) = []
        <-> is_comment <> 0 \/ tty w = false)
    /\ (forall g, Some g <> file -> streams w' !! g = streams w !! g)
    /\ (forall g, Some g = file -> streams w' !! g = None)
    /\ environ w' = environ w /\ fs w' = fs w /\ oracle w' = oracle w.
Proof.
  destruct (handle_exit_exits is_comment status file new_env w) as (w' & He & Ht & Hs).
  exists w'. split; [exact He|]. split; [exact Ht|].
  split; [|split; [|split; [|split]]].
  - unfold newline_events.
    destruct (Z.eqb_spec is_comment 0) as [Hi|Hi], (tty w); simpl;
      split; try done; intros [? ?]; congruence.
  - unfold newline_events.
    destruct (Z.eqb_spec is_comment 0) as [Hi|Hi], (tty w); simpl;
      split; try done; try (intros [?|?]; congruence); auto.
  - intros g Hg. rewrite Hs. destruct file as [f|]; [|done].
    apply lookup_delete_ne. congruence.
  - intros g Hg. rewrite Hs. destruct file as [f|]; [|done].
    injection Hg as ->. apply lookup_delete_eq.
  - clear Ht Hs. unfold handle_exit, bind in He.
    destruct file as [f|], (is_comment =? 0), (tty w) eqn:Htty, new_env as [a|];
      simpl in He; unfold isatty, bind, write, log, ret, exit in He; simpl in He;
      rewrite ?Htty in He; simpl in He; injection He as <-; done.
Qed.


(** X4: the exit code is the status of the last line.  When [n] lines
    have been handled and the reader then has no further line, the process
    exits with the exit status the last of them left in the session,
    after closing the file, writing the newline on a terminal and freeing
    [new_env]; this holds for every loop bound that allows [n + 1] passes. *)
Theorem exit_code_is_last_status (argc : Z) (argv : list string) (n fuel : nat)
    (l l' : locals) (w w' w1 : world) :
  passes n (loop_body argc argv) l w = Ret l' w' ->
  read_command (input_stream (file l)) argc (emit (EvRead (input_stream (file l))) w')
    = Ret None w1 ->
  check_for_comments None = 0 ->
  exists w2,
    do_while (n + S fuel) (loop_body argc argv) (fun _ => true) l w
      = Exit (exit_status (ses l')) w2
    /\ trace w2 = trace w1 ++ [EvCommentFilter None]
                   ++ fclose_events (file l)
                   ++ (if tty w1 then [EvWrite STDOUT_FILENO str_nl] else [])
                   ++ free_events (new_env (ses l'))
                   ++ [EvExit (exit_status (ses l'))].
Proof.
  intros Hp Hr Hc.
  destruct (passes_inv argc argv n l l' w w' Hp) as (_ & Hf & _).
  rewrite <- Hf in Hr.
  destruct (loop_body_end_of_input argc argv l' w' w1 Hr Hc) as (w2 & Hb & Ht).
  exists w2. split.
  - rewrite do_while_passes, Hp. cbn [do_while]. unfold bind. by rewrite Hb.
  - by rewrite <- Hf.
Qed.

(** What [main] does once its locals are set up: the loop, then the
    statements behind it. *)
Lemma main_unfold (fuel : nat) (argc : Z) (argv : list string) (w : world) :
  main fuel argc argv w =
  match malloc 1024 w with
  | Ret p w1 =>
      let l0 := Locals (Session 0 [] p) 0 0 None None in
      let rest (l : locals) : M Z :=
        l <- do_while fuel (loop_body argc argv) (fun _ => true) l;;
        match file l with Some f => fclose f | None => ret tt end;;
        free_memory (cmd l);; ret 0 in
      if 1 <? argc
      then match fopen (arg argv 1) w1 with
           | Ret (Some f) w2 => rest (Locals (Session 0 [] p) 0 0 (Some f) None) w2
           | Ret None w2 =>
               (print_file_error (arg argv 0) 0 (arg argv 1);; free p;; exit 2) w2
           | Exit s w2 => Exit s w2
           | Timeout => Timeout
           end
      else rest l0 w1
  | Exit s w1 => Exit s w1
  | Timeout => Timeout
  end.
Proof.
  unfold main, bind. destruct (malloc 1024 w) as [p w1|s w1|]; [|done|done].
  cbn zeta. destruct (1 <? argc); [|done].
  destruct (fopen (arg argv 1) w1) as [[f|] w2|s w2|]; try done.
  cbn [ses cmd_idx is_comment cmd]. unfold print_file_error, log.
  destruct p; reflexivity.
Qed.

(** Behind the setup, [main] ends as its loop ends. *)
Lemma rest_is_loop (fuel : nat) (argc : Z) (argv : list string) (l : locals) (w : world) :
  (l <- do_while fuel (loop_body argc argv) (fun _ => true) l;;
   match file l with Some f => fclose f | None => ret tt end;;
   free_memory (cmd l);; ret 0) w
  = match do_while fuel (loop_body argc argv) (fun _ => true) l w with
    | Ret _ w' => Timeout
    | Exit s w' => Exit s w'
    | Timeout => Timeout
    end.
Proof.
  unfold bind at 1.
  destruct (do_while fuel _ _ l w) as [l' w'|s w'|] eqn:Hd; [|done|done].
  by apply do_while_forever in Hd.
Qed.

(** X5: a session without input exits 0.  Started without a script,
    when the reader has nothing to deliver at the first call, [main] exits
    with status 0 after the newline for a terminal and the release of its
    buffer; it opens no file and nothing is dispatched. *)
Theorem empty_input_exits_0 (fuel : nat) (argc : Z) (argv : list string)
    (p : option ptr) (w w1 w2 : world) :
  argc <= 1 ->
  malloc 1024 w = Ret p w1 ->
  read_command stdin argc (emit (EvRead stdin) w1) = Ret None w2 ->
  check_for_comments None = 0 ->
  exists w3,
    main (S fuel) argc argv w = Exit 0 w3
    /\ trace w3 = trace w2 ++ [EvCommentFilter None]
                   ++ (if tty w2 then [EvWrite STDOUT_FILENO str_nl] else [])
                   ++ free_events p ++ [EvExit 0].
Proof.
  intros Hargc Hm Hr Hc.
  set (l0 := Locals (Session 0 [] p) 0 0 None None).
  destruct (loop_body_end_of_input argc argv l0 w1 w2 Hr Hc) as (w3 & Hb & Ht).
  exists w3. split; [|exact Ht].
  rewrite main_unfold, Hm. cbn zeta.
  assert ((1 <? argc) = false) as -> by (apply Z.ltb_ge; lia).
  rewrite rest_is_loop. cbn [do_while]. unfold bind. fold l0. by rewrite Hb.
Qed.

(** X6: a script that opens becomes the input.  Started with a script
    that [fopen] can open, [main] reports no error and enters its loop
    with exit status 0 and command index 0, reading from a fresh stream
    that holds the lines of the script; the stream is not standard input
    and replaces no stream that was open, and [main] ends exactly as that
    loop ends. *)
Theorem script_becomes_the_input (fuel : nat) (argc : Z) (argv : list string)
    (path : string) (content : list string) (p : option ptr) (w w1 : world) :
  1 < argc ->
  argv !! 1%nat = Some path ->
  fs w !! path = Some content ->
  malloc 1024 w = Ret p w1 ->
  let f := fresh ({[stdin]} ∪ dom (streams w)) in
  let w2 := emit (EvFopen path true) (set_streams (<[f := content]> (streams w)) w1) in
  let l0 := Locals (Session 0 [] p) 0 0 (Some f) None in
  f <> stdin
  /\ streams w !! f = None
  /\ streams w2 !! f = Some content
  /\ (forall g, g <> f -> streams w2 !! g = streams w !! g)
  /\ (forall n w', main fuel argc argv w = Exit n w'
                   <-> do_while fuel (loop_body argc argv) (fun _ => true) l0 w2
                       = Exit n w')
  /\ (main fuel argc argv w = Timeout
      <-> forall n w', do_while fuel (loop_body argc argv) (fun _ => true) l0 w2
                       <> Exit n w').
Proof.
  intros Hargc Hpath Hfs Hm f w2 l0.
  destruct (malloc_cases 1024 w) as (p' & w1' & Hm' & Hfs1 & Hst1 & _).
  rewrite Hm in Hm'. injection Hm' as <- <-.
  assert (Harg : arg argv 1 = path).
  { unfold arg. destruct argv as [|a0 [|a1 rest]]; simpl in *; congruence. }
  assert (Hfresh : f ∉ ({[stdin]} ∪ dom (streams w) : gset nat)) by apply is_fresh.
  assert (Hmain : main fuel argc argv w
                  = match do_while fuel (loop_body argc argv) (fun _ => true) l0 w2 with
                    | Ret _ _ => Timeout
                    | Exit s w' => Exit s w'
                    | Timeout => Timeout
                    end).
  { rewrite main_unfold, Hm. cbn zeta.
    apply Z.ltb_lt in Hargc. rewrite Hargc.
    unfold fopen. rewrite Harg, Hfs1, Hfs, Hst1. fold f. apply rest_is_loop. }
  split; [set_solver|].
  split; [apply not_elem_of_dom; set_solver|].
  split; [apply lookup_insert_eq|].
  split; [intros g Hg; by apply lookup_insert_ne|].
  rewrite Hmain.
  destruct (do_while fuel (loop_body argc argv) (fun _ => true) l0 w2)
    as [l' w'|s w'|] eqn:Hd.
  - by apply do_while_forever in Hd.
  - split; [intros n w0; split; intros [= -> ->]; reflexivity|].
    split; [done|]. intros Hn. by specialize (Hn s w').
  - split; [intros n w0; split; discriminate|]. split; done.
Qed.


(** X8: a line changes the session only through a stage.  When
    [handle_command_exec] returns, either the line held an operator and
    the session is the one [handle_operators] left, or it held none and
    the session is untouched because the Tokenizer gave no vector, or it
    is the one [process_command] left, called once with that vector and
    the session as it was. *)
Theorem session_changes_only_through_stages (c : option (list string))
    (line : string) (argv : list string) (idx : Z) (s s' : session) (w w' : world) :
  handle_command_exec c line argv idx s w = Ret s' w' ->
  (exists op,
      check_for_operator line = Some op
      /\ handle_operators argv line op idx s
           (emit (EvSplit line) (emit (EvOperatorCheck line) w)) = Ret s' w')
  \/ (check_for_operator line = None
      /\ tokenize_command line delim_ws
           (emit (EvTokenize line) (emit (EvOperatorCheck line) w)) = Ret None w'
      /\ s' = s)
  \/ (exists toks w2 w3,
        check_for_operator line = None
        /\ tokenize_command line delim_ws
             (emit (EvTokenize line) (emit (EvOperatorCheck line) w))
           = Ret (Some toks) w2
        /\ process_command toks argv idx s (emit (EvDispatch toks (exit_status s)) w2)
           = Ret s' w3
        /\ w' = emit (EvStatus (exit_status s')) w3).
Proof.
  unfold handle_command_exec, bind at 1, log.
  destruct (check_for_operator line) as [op|].
  - unfold bind, log. intros Hh. left. by exists op.
  - unfold bind at 1 2, log.
    destruct (tokenize_command line delim_ws _) as [[toks|] w2|n w2|] eqn:Htk;
      [| |done|done].
    + unfold dispatch, bind, log.
      destruct (process_command toks argv idx s _) as [s1 w3|n w3|] eqn:Hpc;
        [|done|done].
      intros [= <- <-]. right. right. by exists toks, w2, w3.
    + intros [= <- <-]. right. left. done.
Qed.

End SessionFacts.

(** ** The same on sample sessions *)


Lemma exit_code_is_last_status_witness :
  passes 1 (loop_body (H := Demo.lib) 1 ["hsh"]) Demo.at_stdin Demo.one_line
    = Ret (Locals (Session 1 [] None) 1 0 None None) Demo.after_one
  /\ read_command (ShellLib := Demo.lib) (input_stream (file Demo.at_stdin)) 1
       (emit (EvRead (input_stream (file Demo.at_stdin))) Demo.after_one)
     = Ret None (emit (EvRead stdin) Demo.after_one)
  /\ check_for_comments (ShellLib := Demo.lib) None = 0
  /\ exists w2,
       do_while 2 (loop_body (H := Demo.lib) 1 ["hsh"]) (fun _ => true)
                Demo.at_stdin Demo.one_line = Exit 1 w2
       /\ trace w2 = trace Demo.after_one
                     ++ [EvRead stdin; EvCommentFilter None;
                         EvWrite STDOUT_FILENO str_nl; EvExit 1].
Proof.
  assert (H1 : passes 1 (loop_body (H := Demo.lib) 1 ["hsh"]) Demo.at_stdin Demo.one_line
               = Ret (Locals (Session 1 [] None) 1 0 None None) Demo.after_one)
    by (vm_compute; reflexivity).
  assert (H2 : read_command (ShellLib := Demo.lib) (input_stream (file Demo.at_stdin)) 1
                 (emit (EvRead (input_stream (file Demo.at_stdin))) Demo.after_one)
               = Ret None (emit (EvRead stdin) Demo.after_one))
    by (vm_compute; reflexivity).
  assert (H3 : check_for_comments (ShellLib := Demo.lib) None = 0) by reflexivity.
  split; [exact H1|]. split; [exact H2|]. split; [exact H3|].
  destruct (exit_code_is_last_status (H := Demo.lib) 1 ["hsh"] 1 0 _ _ _ _ _ H1 H2 H3)
    as (w2 & Hd & Ht).
  exists w2. split; [exact Hd|]. rewrite Ht. vm_compute. reflexivity.
Defined.

Lemma empty_input_exits_0_witness :
  1 <= 1
  /\ malloc 1024 Demo.no_input = Ret (Some 0%nat) Demo.no_input_started
  /\ read_command (ShellLib := Demo.lib) stdin 1 (emit (EvRead stdin) Demo.no_input_started)
     = Ret None (emit (EvRead stdin) Demo.no_input_started)
  /\ check_for_comments (ShellLib := Demo.lib) None = 0
  /\ exists w3,
       main (H := Demo.lib) 1 1 ["hsh"] Demo.no_input = Exit 0 w3
       /\ trace w3 = [EvRead stdin; EvCommentFilter None;
                      EvWrite STDOUT_FILENO str_nl; EvFree 0%nat; EvExit 0].
Proof.
  assert (H1 : 1 <= 1) by lia.
  assert (H2 : malloc 1024 Demo.no_input = Ret (Some 0%nat) Demo.no_input_started)
    by reflexivity.
  assert (H3 : read_command (ShellLib := Demo.lib) stdin 1
                 (emit (EvRead stdin) Demo.no_input_started)
               = Ret None (emit (EvRead stdin) Demo.no_input_started)) by reflexivity.
  assert (H4 : check_for_comments (ShellLib := Demo.lib) None = 0) by reflexivity.
  split; [exact H1|]. split; [exact H2|]. split; [exact H3|]. split; [exact H4|].
  exact (empty_input_exits_0 (H := Demo.lib) 0 1 ["hsh"] _ _ _ _ H1 H2 H3 H4).
Defined.

Lemma script_becomes_the_input_witness :
  1 < 2
  /\ ["hsh"; "build.sh"] !! 1%nat = Some "build.sh"
  /\ fs Demo.with_script !! "build.sh" = Some [Demo.line "true"; Demo.line "false"]
  /\ malloc 1024 Demo.with_script = Ret (Some 0%nat) Demo.with_script_started
  /\ fresh ({[stdin]} ∪ dom (streams Demo.with_script)) <> stdin
  /\ streams Demo.with_script !! fresh ({[stdin]} ∪ dom (streams Demo.with_script)) = None.
Proof.
  assert (H1 : 1 < 2) by lia.
  assert (H2 : ["hsh"; "build.sh"] !! 1%nat = Some "build.sh") by reflexivity.
  assert (H3 : fs Demo.with_script !! "build.sh"
               = Some [Demo.line "true"; Demo.line "false"]) by reflexivity.
  assert (H4 : malloc 1024 Demo.with_script = Ret (Some 0%nat) Demo.with_script_started)
    by reflexivity.
  split; [exact H1|]. split; [exact H2|]. split; [exact H3|]. split; [exact H4|].
  destruct (script_becomes_the_input (H := Demo.lib) 5 2 _ _ _ _ _ _ H1 H2 H3 H4)
    as (Hf & Hn & _).
  split; [exact Hf | exact Hn].
Defined.


Lemma session_changes_only_through_stages_witness :
  handle_command_exec (H := Demo.lib) None (Demo.line "false") ["hsh"] 1
      (Session 0 [] None) (Demo.world_of [] [] false)
    = Ret (Session 1 [] None) Demo.false_handled
  /\ check_for_operator (ShellLib := Demo.lib) (Demo.line "false") = None.
Proof.
  assert (H1 : handle_command_exec (H := Demo.lib) None (Demo.line "false") ["hsh"] 1
                 (Session 0 [] None) (Demo.world_of [] [] false)
               = Ret (Session 1 [] None) Demo.false_handled)
    by (vm_compute; reflexivity).
  split; [exact H1|].
  destruct (session_changes_only_through_stages (H := Demo.lib) _ _ _ _ _ _ _ _ H1)
    as [(op & Hop & _)|[(Hop & _)|(toks & w2 & w3 & Hop & _)]];
    [|exact Hop|exact Hop].
  vm_compute in Hop. discriminate Hop.
Defined.

(** * Allocation failure, stage by stage *)

Section AllocationFacts.
Context `{ShellLib}.


(** X3: the command index counts the lines.  After [n] passes that came
    back, and as long as the index stays within [int], the command index
    has advanced by exactly [n] and is still an [int], the loop still
    reads from the same file (or from standard input) and the token vector
    of [main] is unchanged; the loop goes on from there. *)
Theorem index_counts_lines (argc : Z) (argv : list string) (n : nat)
    (l l' : locals) (w w' : world) :
  passes n (loop_body argc argv) l w = Ret l' w' ->
  INT_MIN <= cmd_idx l ->
  cmd_idx l + Z.of_nat n <= INT_MAX ->
  cmd_idx l' = cmd_idx l + Z.of_nat n
  /\ INT_MIN <= cmd_idx l' <= INT_MAX
  /\ file l' = file l
  /\ cmd l' = cmd l
  /\ forall fuel,
       do_while (n + fuel) (loop_body argc argv) (fun _ => true) l w
       = do_while fuel (loop_body argc argv) (fun _ => true) l' w'.
Proof.
  intros Hp Hlo Hhi. destruct (passes_inv argc argv n l l' w w' Hp) as (Hi & Hf & Hc).
  split; [exact Hi|]. split; [lia|]. split; [exact Hf|]. split; [exact Hc|].
  intros fuel. by rewrite do_while_passes, Hp.
Qed.

End AllocationFacts.



Lemma index_counts_lines_witness :
  passes 2 (loop_body (H := Demo.lib) 1 ["hsh"]) Demo.at_stdin Demo.two_lines
    = Ret (Locals (Session 0 [] None) 2 0 None None) Demo.after_both
  /\ INT_MIN <= cmd_idx Demo.at_stdin
  /\ cmd_idx Demo.at_stdin + Z.of_nat 2 <= INT_MAX
  /\ cmd_idx (Locals (Session 0 [] None) 2 0 None None) = cmd_idx Demo.at_stdin + 2
  /\ do_while 5 (loop_body (H := Demo.lib) 1 ["hsh"]) (fun _ => true)
              Demo.at_stdin Demo.two_lines
     = do_while 3 (loop_body (H := Demo.lib) 1 ["hsh"]) (fun _ => true)
                (Locals (Session 0 [] None) 2 0 None None) Demo.after_both.
Proof.
  assert (H1 : passes 2 (loop_body (H := Demo.lib) 1 ["hsh"]) Demo.at_stdin Demo.two_lines
               = Ret (Locals (Session 0 [] None) 2 0 None None) Demo.after_both)
    by (vm_compute; reflexivity).
  assert (H2 : INT_MIN <= cmd_idx Demo.at_stdin) by (vm_compute; discriminate).
  assert (H3 : cmd_idx Demo.at_stdin + Z.of_nat 2 <= INT_MAX) by (vm_compute; discriminate).
  split; [exact H1|]. split; [exact H2|]. split; [exact H3|].
  destruct (index_counts_lines (H := Demo.lib) 1 ["hsh"] 2 _ _ _ _ H1 H2 H3)
    as (Hi & _ & _ & _ & Hd).
  split; [exact Hi | exact (Hd 3%nat)].
Defined.

Lemma end_of_input_exit_witness :
  read_command (ShellLib := Demo.lib) (input_stream (file Demo.at_script)) 2
      (emit (EvRead (input_stream (file Demo.at_script))) Demo.script_done)
    = Ret None (emit (EvRead Demo.script) Demo.script_done)
  /\ check_for_comments (ShellLib := Demo.lib) None = 0
  /\ exists w2,
       loop_body (H := Demo.lib) 2 ["hsh"; "script.sh"] Demo.at_script
                 Demo.script_done = Exit 7 w2
       /\ trace w2 = [EvRead Demo.script; EvCommentFilter None; EvFclose Demo.script;
                      EvWrite STDOUT_FILENO str_nl; EvFree 0%nat; EvExit 7]
       /\ streams w2 = {[stdin := []]}.
Proof.
  assert (H1 : read_command (ShellLib := Demo.lib) (input_stream (file Demo.at_script)) 2
                 (emit (EvRead (input_stream (file Demo.at_script))) Demo.script_done)
               = Ret None (emit (EvRead Demo.script) Demo.script_done))
    by reflexivity.
  assert (H2 : check_for_comments (ShellLib := Demo.lib) None = 0) by reflexivity.
  split; [exact H1|]. split; [exact H2|].
  destruct (end_of_input_exit (H := Demo.lib) 2 ["hsh"; "script.sh"] Demo.at_script _ _ H1 H2)
    as (w2 & Hb & Ht & Hs).
  exists w2. split; [exact Hb|]. split; [exact Ht|].
  rewrite Hs. vm_compute. reflexivity.
Defined.

(** * The gates of a chain *)

(** [handle_command_exec] with the helpers of the specification. *)
Lemma handle_command_exec_spec (programs : gmap string (list string -> Z))
    (c : option (list string)) (line : string) (argv : list string) (idx : Z)
    (s : session) (w : world) :
  handle_command_exec (H := Spec.lib programs) c line argv idx s w =
  match Spec.check_for_operator line with
  | Some _ =>
      Spec.run_chain Spec.tokenize_command (Spec.process_command programs) argv idx
        (Spec.segments Spec.NONE line) s
        (emit (EvSplit line) (emit (EvOperatorCheck line) w))
  | None =>
      Spec.run_segment Spec.tokenize_command (Spec.process_command programs) argv idx
        line s (emit (EvOperatorCheck line) w)
  end.
Proof.
  unfold handle_command_exec, bind at 1, log. cbn [Spec.lib check_for_operator].
  destruct (Spec.check_for_operator line); reflexivity.
Qed.

Section GateFacts.
Import Spec.

Lemma segments_cons (tag : op_tag) (c : ascii) (r : string) :
  segments tag (String c r) =
  if Ascii.eqb c ch_semi then Seg tag EmptyString :: segments SEQ r
  else match r with
       | String c' r' =>
           if Ascii.eqb c ch_amp && Ascii.eqb c' ch_amp
           then Seg tag EmptyString :: segments AND r'
           else if Ascii.eqb c ch_bar && Ascii.eqb c' ch_bar
           then Seg tag EmptyString :: segments OR r'
           else push_char c (segments tag r)
       | EmptyString => push_char c (segments tag r)
       end.
Proof. reflexivity. Qed.

Lemma segments_head_and_tags (s : string) :
  (forall tag, exists x rest,
      segments tag s = Seg tag x :: rest
      /\ Forall (fun g => seg_op g <> NONE) rest)
  /\ (forall tag c, exists x rest,
        segments tag (String c s) = Seg tag x :: rest
        /\ Forall (fun g => seg_op g <> NONE) rest).
Proof.
  induction s as [|a r [IH1 IH2]].
  - split; [intros tag; exists EmptyString, []; done|].
    intros tag c. cbn [segments].
    destruct (Ascii.eqb c ch_semi).
    + exists EmptyString, [Seg SEQ EmptyString]. split; [done|]. by repeat constructor.
    + exists (String c EmptyString), []. done.
  - split; [intros tag; apply IH2|].
    intros tag c. rewrite segments_cons.
    destruct (Ascii.eqb c ch_semi).
    { destruct (IH2 SEQ a) as (x & rest & -> & Hrest).
      exists EmptyString, (Seg SEQ x :: rest). split; [done|]. by constructor. }
    destruct (Ascii.eqb c ch_amp && Ascii.eqb a ch_amp).
    { destruct (IH1 AND) as (x & rest & -> & Hrest).
      exists EmptyString, (Seg AND x :: rest). split; [done|]. by constructor. }
    destruct (Ascii.eqb c ch_bar && Ascii.eqb a ch_bar).
    { destruct (IH1 OR) as (x & rest & -> & Hrest).
      exists EmptyString, (Seg OR x :: rest). split; [done|]. by constructor. }
    destruct (IH2 tag a) as (x & rest & -> & Hrest).
    exists (String c x), rest. done.
Qed.

Lemma segments_tail_tags (tag : op_tag) (s : string) (g : Segment) (rest : list Segment) :
  segments tag s = g :: rest -> Forall (fun g => seg_op g <> NONE) rest.
Proof.
  destruct (proj1 (segments_head_and_tags s) tag) as (x & rest' & -> & Hrest).
  by intros [= _ <-].
Qed.

Lemma segments_without_operator (s : string) : forall tag,
  check_for_operator s = None -> segments tag s = [Seg tag s].
Proof.
  induction s as [|c r IH]; intros tag; [done|].
  cbn [check_for_operator segments].
  destruct (Ascii.eqb c ch_semi); [done|].
  destruct r as [|c' r']; [done|].
  destruct (Ascii.eqb c ch_amp && Ascii.eqb c' ch_amp); [done|].
  destruct (Ascii.eqb c ch_bar && Ascii.eqb c' ch_bar); [done|].
  intros Hr. by rewrite (IH tag Hr).
Qed.

Lemma runs_after_gate (t : op_tag) (status : Z) :
  t <> NONE -> (runs_after t status <-> gate t status = true).
Proof.
  intros Ht. unfold runs_after, gate. destruct t; [done|..].
  - rewrite Z.eqb_eq. split; [intros [?|[[_ ?]|[? _]]]; done|auto].
  - rewrite negb_true_iff, Z.eqb_neq. split; [intros [?|[[? _]|[_ ?]]]; done|auto].
  - split; [done|auto].
Qed.

Section Chain.
Variable tk : string -> string -> M (option (list string)).
Variable pc : list string -> list string -> Z -> session -> M session.
Variables (argv : list string) (idx : Z).

Lemma run_chain_blank_middle (t : op_tag) (x : string) (rest : list Segment)
    (s : session) (w : world) :
  all_delim delim_ws x = true -> t <> NONE -> rest <> [] ->
  run_chain tk pc argv idx (Seg t x :: rest) s w = run_chain tk pc argv idx rest s w.
Proof.
  intros Hx Ht Hrest. cbn [run_chain]. rewrite Hx.
  destruct t, rest; done.
Qed.

(** In front of further segments, the segments without a command count
    for nothing. *)
Lemma run_chain_drop_blanks (pre post : list Segment) : forall s w,
  post <> [] ->
  Forall (fun g => all_delim delim_ws (seg_text g) = true -> seg_op g <> NONE) pre ->
  run_chain tk pc argv idx (pre ++ post) s w
  = run_chain tk pc argv idx (commands pre ++ post) s w.
Proof.
  induction pre as [|[t x] pre IH]; intros s w Hpost Hpre; [done|].
  inversion Hpre as [|? ? Hg Hpre']; subst. simpl in Hg.
  cbn [app commands List.filter seg_text].
  destruct (all_delim delim_ws x) eqn:Hx; cbn [negb].
  - fold (commands pre). specialize (Hg eq_refl).
    change (run_chain tk pc argv idx (Seg t x :: pre ++ post) s w
            = run_chain tk pc argv idx (commands pre ++ post) s w).
    rewrite run_chain_blank_middle; [by apply IH|done|done|].
    intros Happ. apply app_eq_nil in Happ as [_ ?]. done.
  - fold (commands pre). cbn [app run_chain]. rewrite Hx.
    destruct (gate t (exit_status s)); [|by apply IH].
    unfold bind. destruct (run_segment tk pc argv idx x s w) as [s1 w1|n w1|]; [|done|done].
    by apply IH.
Qed.

Lemma commands_hold_commands (segs : list Segment) :
  forallb (fun g => negb (all_delim delim_ws (seg_text g))) (commands segs) = true.
Proof.
  induction segs as [|g segs IH]; [done|].
  cbn [commands List.filter]. destruct (negb (all_delim delim_ws (seg_text g))) eqn:Hg;
    [|exact IH].
  cbn [forallb]. rewrite Hg. exact IH.
Qed.

End Chain.

Variable programs : gmap string (list string -> Z).
Let L := lib programs.

(** A segment that holds a command, run with the Tokenizer of the
    specification. *)
Lemma run_segment_spec (argv : list string) (idx : Z) (text : string)
    (s : session) (w : world) :
  tokens delim_ws text <> [] ->
  run_segment tokenize_command (process_command programs) argv idx text s w
  = match alloc_ok (emit (EvTokenize text) w) with
    | Ret true w2 =>
        match process_command programs (tokens delim_ws text) argv idx s
                (emit (EvDispatch (tokens delim_ws text) (exit_status s)) w2) with
        | Ret s2 w3 => Ret s2 (emit (EvStatus (exit_status s2)) w3)
        | Exit n w3 => Exit n w3
        | Timeout => Timeout
        end
    | Ret false w2 => Ret s w2
    | Exit n w2 => Exit n w2
    | Timeout => Timeout
    end.
Proof.
  intros Htoks. unfold run_segment, tokenize_command, dispatch, bind, log, ret.
  destruct (alloc_ok (emit (EvTokenize text) w)) as [[|] w2|n w2|]; try done.
  destruct (tokens delim_ws text) as [|tok toks]; [done|].
  by destruct (process_command programs (tok :: toks) argv idx s _).
Qed.

(** C2: the gates of the chaining operators.  Take any line, any segment
    [text] of it that holds a command and stands behind an operator [t],
    the line not beginning with an operator; let the commands in front of
    the segment have run and left the session [s1].  Then the segment is
    run exactly by the chaining rules applied to the exit status of [s1]:
    always behind [;], only on status 0 behind [&&], only on a non-zero
    status behind [||].  Run means that its tokens are handed to the
    Dispatcher together with [s1], and that the rest of the chain goes on
    from what the Dispatcher leaves; not run means that the rest of the
    chain goes on from [s1], the segment neither tokenized nor
    dispatched. *)
Theorem operator_gates (c : option (list string)) (line : string)
    (argv : list string) (idx : Z) (s s1 : session) (w w1 : world)
    (first : string) (pre : list Segment) (t : op_tag) (text : string)
    (post : list Segment) :
  segments NONE line = Seg NONE first :: pre ++ Seg t text :: post ->
  all_delim delim_ws first = false ->
  all_delim delim_ws text = false ->
  run_chain tokenize_command (process_command programs) argv idx
      (Seg NONE first :: commands pre) s
      (emit (EvSplit line) (emit (EvOperatorCheck line) w)) = Ret s1 w1 ->
  t <> NONE
  /\ tokens delim_ws text <> []
  /\ (runs_after t (exit_status s1) ->
      handle_command_exec (H := L) c line argv idx s w
      = match alloc_ok (emit (EvTokenize text) w1) with
        | Ret true w2 =>
            match process_command programs (tokens delim_ws text) argv idx s1
                    (emit (EvDispatch (tokens delim_ws text) (exit_status s1)) w2) with
            | Ret s2 w3 =>
                run_chain tokenize_command (process_command programs) argv idx
                          post s2 (emit (EvStatus (exit_status s2)) w3)
            | Exit n w3 => Exit n w3
            | Timeout => Timeout
            end
        | Ret false w2 =>
            run_chain tokenize_command (process_command programs) argv idx post s1 w2
        | Exit n w2 => Exit n w2
        | Timeout => Timeout
        end)
  /\ (~ runs_after t (exit_status s1) ->
      handle_command_exec (H := L) c line argv idx s w
      = run_chain tokenize_command (process_command programs) argv idx post s1 w1).
Proof.
  intros Hsegs Hfirst Htext Hfront.
  pose proof (segments_tail_tags _ _ _ _ Hsegs) as Htags.
  apply Forall_app in Htags as [Hpre Htags].
  inversion Htags as [|? ? Ht _]; subst. simpl in Ht.
  assert (Htoks : tokens delim_ws text <> []).
  { intros Hnil. apply tokens_nil_iff in Hnil. congruence. }
  assert (Hop : exists op, check_for_operator line = Some op).
  { destruct (check_for_operator line) as [op|] eqn:Hc; [by exists op|].
    rewrite (segments_without_operator line NONE Hc) in Hsegs.
    injection Hsegs as _ Hnil. by destruct pre. }
  destruct Hop as (op & Hop).
  assert (Hrun : handle_command_exec (H := L) c line argv idx s w
                 = match gate t (exit_status s1) with
                   | true =>
                       (s2 <- run_segment tokenize_command (process_command programs)
                                argv idx text s1;;
                        run_chain tokenize_command (process_command programs)
                                  argv idx post s2) w1
                   | false =>
                       run_chain tokenize_command (process_command programs)
                                 argv idx post s1 w1
                   end).
  { unfold L. rewrite handle_command_exec_spec, Hop, Hsegs.
    change (Seg NONE first :: pre ++ Seg t text :: post)
      with ((Seg NONE first :: pre) ++ Seg t text :: post).
    rewrite run_chain_drop_blanks; [|done|].
    2: { constructor; [simpl; congruence|].
         eapply Forall_impl; [exact Hpre|]. intros g Hg _. exact Hg. }
    assert (commands (Seg NONE first :: pre) = Seg NONE first :: commands pre) as ->.
    { cbn [commands List.filter seg_text]. by rewrite Hfirst. }
    rewrite run_chain_app.
    2: { cbn [forallb seg_text]. rewrite Hfirst. cbn [negb andb].
         apply commands_hold_commands. }
    unfold bind at 1. rewrite Hfront. cbn [run_chain]. rewrite Htext.
    by destruct (gate t (exit_status s1)). }
  split; [exact Ht|]. split; [exact Htoks|]. split.
  - intros Hr. apply runs_after_gate in Hr; [|exact Ht]. rewrite Hrun, Hr.
    unfold bind at 1. rewrite run_segment_spec by done.
    destruct (alloc_ok (emit (EvTokenize text) w1)) as [[|] w2|n w2|]; try done.
    by destruct (process_command programs _ argv idx s1 _).
  - intros Hr. rewrite Hrun.
    destruct (gate t (exit_status s1)) eqn:Hg; [|done].
    apply runs_after_gate in Hg; done.
Qed.

End GateFacts.

Lemma operator_gates_witness :
  (Spec.segments Spec.NONE Demo.chain_line
   = Spec.Seg Spec.NONE "false "
     :: [] ++ Spec.Seg Spec.OR " echo a "
              :: [Spec.Seg Spec.AND " echo b "; Spec.Seg Spec.SEQ " false"]
   /\ Spec.run_chain Spec.tokenize_command (Spec.process_command Demo.programs) ["hsh"] 1
        (Spec.Seg Spec.NONE "false " :: commands [])
        Demo.fresh_session Demo.chain_start
      = Ret (Session 1 [] None) Demo.chain_front_done
   /\ runs_after Spec.OR 1)
  /\ dispatched (handle_command_exec (H := Spec.lib Demo.programs) None Demo.chain_line
                   ["hsh"] 1 Demo.fresh_session (Demo.world_of [] [] false))
     = [["false"]; ["echo"; "a"]; ["echo"; "b"]; ["false"]]
  /\ (exit_status <$> value (handle_command_exec (H := Spec.lib Demo.programs) None
                               Demo.chain_line ["hsh"] 1 Demo.fresh_session
                               (Demo.world_of [] [] false)))
     = Some 1.
Proof.
  assert (H1 : Spec.segments Spec.NONE Demo.chain_line
               = Spec.Seg Spec.NONE "false "
                 :: [] ++ Spec.Seg Spec.OR " echo a "
                          :: [Spec.Seg Spec.AND " echo b "; Spec.Seg Spec.SEQ " false"])
    by (vm_compute; reflexivity).
  assert (H2 : Spec.run_chain Spec.tokenize_command (Spec.process_command Demo.programs)
                 ["hsh"] 1
                 (Spec.Seg Spec.NONE "false " :: commands [])
                 Demo.fresh_session Demo.chain_start
               = Ret (Session 1 [] None) Demo.chain_front_done)
    by (vm_compute; reflexivity).
  assert (H3 : runs_after Spec.OR 1) by (right; right; split; [reflexivity|discriminate]).
  split; [by repeat split|].
  destruct (operator_gates Demo.programs None Demo.chain_line ["hsh"] 1
              Demo.fresh_session (Session 1 [] None) (Demo.world_of [] [] false)
              Demo.chain_front_done "false " [] Spec.OR " echo a "
              [Spec.Seg Spec.AND " echo b "; Spec.Seg Spec.SEQ " false"]
              H1 eq_refl eq_refl H2)
    as (_ & _ & Hrun & _).
  rewrite (Hrun H3). split; vm_compute; reflexivity.
Defined.

(** The read and the Comment Filter, on an input that holds a line. *)
Lemma read_and_handle_comments_spec (programs : gmap string (list string -> Z))
    (file : option FILE) (argc : Z) (w : world) (raw : string) (rest : list string) :
  streams w !! input_stream file = Some (raw :: rest) ->
  read_and_handle_comments (H := Spec.lib programs) file argc w
  = Ret (filtered raw, Spec.check_for_comments (Some raw))
        (emit (EvCommentFilter (Some raw))
           (set_streams (<[input_stream file := rest]> (streams w))
              (emit (EvRead (input_stream file)) w))).
Proof.
  intros Hs. rewrite read_and_handle_comments_eq.
  cbn [Spec.lib read_command check_for_comments handle_comments].
  unfold Spec.read_command. cbn [streams emit]. rewrite Hs. reflexivity.
Qed.

Section OrderFacts.
Import Spec.
Variable programs : gmap string (list string -> Z).

Lemma stage_events_app (es fs : list event) :
  stage_events (es ++ fs) = stage_events es ++ stage_events fs.
Proof. apply List.filter_app. Qed.

Lemma stage_events_emit (e : event) (w : world) :
  stage_events (trace (emit e w))
  = stage_events (trace w) ++ (if neutral e then [] else [e]).
Proof. cbn [emit trace]. rewrite stage_events_app. cbn. by destruct (neutral e). Qed.

(** The Dispatcher with memory plentiful: it adds no stage event, leaves
    memory plentiful and the streams alone, and the status it leaves is
    [dispatcher_status]. *)
Lemma process_command_status (c argv : list string) (idx : Z) (s : session) (w : world) :
  oracle w = [] ->
  match process_command programs c argv idx s w with
  | Ret s' w' =>
      dispatcher_status programs c (exit_status s) = Some (exit_status s')
      /\ stage_events (trace w') = stage_events (trace w)
      /\ oracle w' = [] /\ streams w' = streams w
  | Exit n w' =>
      dispatcher_status programs c (exit_status s) = None
      /\ stage_events (trace w') = stage_events (trace w)
  | Timeout => False
  end.
Proof.
  intros Ho. unfold dispatcher_status, process_command.
  destruct c as [|name args]; [done|].
  destruct (String.eqb name "exit").
  { unfold builtin_exit, free_aliases, print_shell_error, free, exit, log, bind, ret.
    destruct args as [|operand args']; [|destruct (parse_status operand)];
      destruct (new_env s); cbn;
      rewrite ?app_nil_r, ?stage_events_app; cbn; rewrite ?app_nil_r; done. }
  destruct (String.eqb name "setenv").
  { unfold builtin_setenv, env_failure, print_env_error, print_shell_error, env_set,
      alloc_ok, log, bind, ret.
    destruct args as [|a1 [|a2 [|a3 rest]]]; cbn; rewrite ?Ho; cbn;
      rewrite ?stage_events_app; cbn; rewrite ?app_nil_r; done. }
  destruct (String.eqb name "unsetenv").
  { unfold builtin_unsetenv, env_failure, print_env_error, print_shell_error, env_unset,
      alloc_ok, log, bind, ret.
    destruct args as [|a1 [|a2 rest]]; cbn; rewrite ?Ho; cbn;
      rewrite ?stage_events_app; cbn; rewrite ?app_nil_r; try done.
    destruct (environ w !! a1); cbn; rewrite ?Ho; cbn; done. }
  unfold print_shell_error, log, bind, ret.
  destruct (programs !! name); cbn; rewrite ?stage_events_app; cbn;
    rewrite ?app_nil_r; done.
Qed.

(** One segment, tokenized and dispatched. *)
Lemma run_segment_trace (argv : list string) (idx : Z) (text : string)
    (s : session) (w : world) :
  oracle w = [] ->
  match run_segment tokenize_command (process_command programs) argv idx text s w with
  | Ret s' w' =>
      stage_events (trace w')
      = stage_events (trace w) ++ (expect_single (dispatcher_status programs) text (exit_status s)).1
      /\ (expect_single (dispatcher_status programs) text (exit_status s)).2 = Some (exit_status s')
      /\ oracle w' = [] /\ streams w' = streams w
  | Exit n w' =>
      stage_events (trace w')
      = stage_events (trace w) ++ (expect_single (dispatcher_status programs) text (exit_status s)).1
      /\ (expect_single (dispatcher_status programs) text (exit_status s)).2 = None
  | Timeout => False
  end.
Proof.
  intros Ho.
  assert (Heq : run_segment tokenize_command (process_command programs) argv idx text s w
                = match tokens delim_ws text with
                  | [] => Ret s (emit (EvTokenize text) w)
                  | c => dispatch (process_command programs) c argv idx s
                           (emit (EvTokenize text) w)
                  end).
  { unfold run_segment, tokenize_command, bind, log, alloc_ok, ret.
    cbn [oracle emit]. rewrite Ho. by destruct (tokens delim_ws text). }
  rewrite Heq. clear Heq. unfold expect_single.
  destruct (tokens delim_ws text) as [|tok toks] eqn:Hk.
  { rewrite stage_events_emit. cbn. done. }
  unfold dispatch, bind, log, ret.
  match goal with
  | |- context [process_command programs ?c argv idx s ?w0] =>
      pose proof (process_command_status c argv idx s w0 Ho) as Hpc;
      cbn [trace emit] in Hpc;
      destruct (process_command programs c argv idx s w0) as [s2 w3|n w3|]
  end; [| |done].
  - destruct Hpc as (Hst & Htr & Ho3 & Hs3).
    rewrite Hst. cbn [fst snd trace emit oracle streams].
    rewrite stage_events_app, Htr, !stage_events_app. cbn.
    rewrite <- !app_assoc. done.
  - destruct Hpc as (Hst & Htr). rewrite Hst. cbn [fst snd].
    rewrite Htr, !stage_events_app. cbn.
    rewrite <- !app_assoc. done.
Qed.

(** A chain, segment by segment. *)
Lemma run_chain_trace (argv : list string) (idx : Z) (segs : list Segment) :
  forall (s : session) (w : world),
  oracle w = [] ->
  match run_chain tokenize_command (process_command programs) argv idx segs s w with
  | Ret s' w' =>
      stage_events (trace w')
      = stage_events (trace w) ++ (expect_chain (dispatcher_status programs) segs (exit_status s)).1
      /\ (expect_chain (dispatcher_status programs) segs (exit_status s)).2 = Some (exit_status s')
      /\ oracle w' = [] /\ streams w' = streams w
  | Exit n w' =>
      stage_events (trace w')
      = stage_events (trace w) ++ (expect_chain (dispatcher_status programs) segs (exit_status s)).1
      /\ (expect_chain (dispatcher_status programs) segs (exit_status s)).2 = None
  | Timeout => False
  end.
Proof.
  induction segs as [|[t text] rest IH]; intros s w Ho.
  { cbn. by rewrite app_nil_r. }
  cbn [run_chain expect_chain].
  destruct (all_delim delim_ws text) eqn:Hb.
  { assert (Hsyn : match syntax_error argv idx s w with
                   | Ret s' w' =>
                       stage_events (trace w')
                       = stage_events (trace w) ++ [EvStatus syntax_status]
                       /\ Some syntax_status = Some (exit_status s')
                       /\ oracle w' = [] /\ streams w' = streams w
                   | Exit _ _ => False
                   | Timeout => False
                   end).
    { unfold syntax_error, print_shell_error, log, bind, ret. cbn.
      rewrite !stage_events_app. cbn. by rewrite app_nil_r. }
    destruct t, rest as [|g rest']; cbn [fst snd]; try exact Hsyn;
      by apply IH. }
  destruct (gate t (exit_status s)); [|by apply IH].
  assert (Hk : tokens delim_ws text <> []).
  { intros Hnil. apply tokens_nil_iff in Hnil. congruence. }
  pose proof (run_segment_trace argv idx text s w Ho) as Hseg.
  unfold expect_single in Hseg.
  unfold bind at 1.
  destruct (tokens delim_ws text) as [|tok toks] eqn:Htoks; [done|].
  destruct (run_segment tokenize_command (process_command programs) argv idx text s w)
    as [s2 w2|n w2|]; [| |done].
  - destruct (dispatcher_status programs (tok :: toks) (exit_status s)) as [st|]; cbn [fst snd] in *;
      [|by destruct Hseg as (_ & ? & _)].
    destruct Hseg as (Htr & [= ->] & Ho2 & Hs2).
    specialize (IH s2 w2 Ho2).
    destruct (run_chain tokenize_command (process_command programs) argv idx rest s2 w2)
      as [s3 w3|n w3|]; [| |done].
    + destruct IH as (Htr3 & Hst3 & Ho3 & Hs3).
      rewrite Htr3, Htr, <- app_assoc. cbn. split; [done|]. split; [done|].
      split; [done|]. congruence.
    + destruct IH as (Htr3 & Hst3).
      rewrite Htr3, Htr, <- app_assoc. cbn. done.
  - destruct (dispatcher_status programs (tok :: toks) (exit_status s)) as [st|]; cbn [fst snd] in *;
      [by destruct Hseg as (_ & ?)|].
    by destruct Hseg as (-> & _).
Qed.

(** A filtered line, from the search for an operator on. *)
Lemma handle_command_exec_trace (c : option (list string)) (line : string)
    (argv : list string) (idx : Z) (s : session) (w : world) :
  oracle w = [] ->
  match handle_command_exec (H := lib programs) c line argv idx s w with
  | Ret s' w' =>
      stage_events (trace w')
      = stage_events (trace w)
        ++ (expect_line (dispatcher_status programs) line (exit_status s)).1
      /\ (expect_line (dispatcher_status programs) line (exit_status s)).2
         = Some (exit_status s')
      /\ oracle w' = [] /\ streams w' = streams w
  | Exit n w' =>
      stage_events (trace w')
      = stage_events (trace w)
        ++ (expect_line (dispatcher_status programs) line (exit_status s)).1
      /\ (expect_line (dispatcher_status programs) line (exit_status s)).2 = None
  | Timeout => False
  end.
Proof.
  intros Ho. rewrite handle_command_exec_spec. unfold expect_line.
  destruct (check_for_operator line) as [op|].
  - pose proof (run_chain_trace argv idx (segments NONE line) s
                  (emit (EvSplit line) (emit (EvOperatorCheck line) w)) Ho) as Hc.
    destruct (run_chain _ _ argv idx (segments NONE line) s _) as [s' w'|n w'|];
      [| |done]; cbn [fst snd trace emit] in *;
      rewrite !stage_events_app in Hc; cbn in Hc; rewrite <- !app_assoc in Hc;
      exact Hc.
  - pose proof (run_segment_trace argv idx line s (emit (EvOperatorCheck line) w) Ho)
      as Hc.
    destruct (run_segment _ _ argv idx line s _) as [s' w'|n w'|];
      [| |done]; cbn [fst snd trace emit] in *;
      rewrite !stage_events_app in Hc; cbn in Hc; rewrite <- !app_assoc in Hc;
      exact Hc.
Qed.


End OrderFacts.

